(** * seminar_topic_solver.py: shallow embedding of the loader and the solver wrapper

    The script reads a ';'-separated table (header row of topics, then one
    row per student), turns the partial preference numbers into a full list
    of (student, topic, cost) triples ([parse_csv]) and hands the dense cost
    matrix to scipy's [linear_sum_assignment] ([solve_assignment_problem]).

    The table is modelled as what [csv.reader] yields: a list of rows, each a
    list of cell strings (an empty file yields no rows).  Python exceptions
    are the [Err] branch of a small error monad.  The module-level global
    [penalize_below_n_preferences] is passed explicitly as [t]. *)

From Stdlib Require Import String Ascii ZArith Bool Lia QArith List Permutation.
Import ListNotations.
Open Scope Z_scope.

(** ** Python exceptions raised along the way *)

Inductive py_error : Type :=
| IndexError                                  (* list / array index out of range *)
| ValueError_int (cell : string)              (* int(preference_string) failed *)
| ValueError_less_than_one (p : Z) (student topic : nat)
| ValueError_not_unique (p : Z) (student topic : nat)
| ValueError_not_sequence (student : nat)
| ValueError_max_empty                        (* max() of an empty list *)
| OverflowError                               (* an int too large for a float64, or
                                                 "%d" of an infinite float *)
| ValueError_nan.                             (* "%d" of a nan float *)


Inductive result (A : Type) : Type :=
| Ok (a : A)
| Err (e : py_error).
Arguments Ok {A} a.
Arguments Err {A} e.

Definition bind {A B} (m : result A) (k : A -> result B) : result B :=
  match m with Ok a => k a | Err e => Err e end.

Notation "x <- m ;; k" := (bind m (fun x => k))
  (at level 61, m at next level, right associativity).

Definition is_ok {A} (r : result A) : bool :=
  match r with Ok _ => true | Err _ => false end.

(** [l[i]] on a Python list. *)
Definition index {A} (l : list A) (i : nat) : result A :=
  match nth_error l i with Some x => Ok x | None => Err IndexError end.

(** A [for] loop threading an accumulator that may raise. *)
Fixpoint fold_result {A B} (f : A -> B -> result A) (l : list B) (a : A)
  : result A :=
  match l with
  | [] => Ok a
  | b :: l' => a' <- f a b ;; fold_result f l' a'
  end.

(** A list comprehension whose body may raise. *)
Fixpoint map_result {A B} (f : A -> result B) (l : list A) : result (list B) :=
  match l with
  | [] => Ok []
  | a :: l' => b <- f a ;; bs <- map_result f l' ;; Ok (b :: bs)
  end.

Definition sum_Z (l : list Z) : Z := fold_right Z.add 0 l.

(** ** [int(s)] on a str (base 10)

    Surrounding whitespace is stripped (Python's ASCII whitespace: \t \n \v
    \f \r, the separators 0x1c-0x1f and space), then an optional sign, then
    decimal digits with single underscores allowed between digits, at most
    4300 of them.  Only ASCII strings are modelled. *)

Definition is_py_space (c : ascii) : bool :=
  let n := nat_of_ascii c in
  ((9 <=? n)%nat && (n <=? 13)%nat) || ((28 <=? n)%nat && (n <=? 32)%nat).

Fixpoint lstrip (l : list ascii) : list ascii :=
  match l with
  | c :: r => if is_py_space c then lstrip r else l
  | [] => []
  end.

Definition strip (l : list ascii) : list ascii := rev (lstrip (rev (lstrip l))).

Definition digit_value (c : ascii) : option Z :=
  let n := nat_of_ascii c in
  if ((48 <=? n)%nat && (n <=? 57)%nat) then Some (Z.of_nat (n - 48)) else None.

Fixpoint parse_digits (l : list ascii) (acc : Z) (after_digit : bool) : option Z :=
  match l with
  | [] => if after_digit then Some acc else None
  | c :: r =>
      match digit_value c with
      | Some d => parse_digits r (acc * 10 + d) true
      | None =>
          if Ascii.eqb c "_"%char && after_digit
          then parse_digits r acc false else None
      end
  end.

(** The number of decimal digits in [l] (underscores and signs not counted). *)
Fixpoint count_digits (l : list ascii) : nat :=
  match l with
  | [] => O
  | c :: r => match digit_value c with
              | Some _ => S (count_digits r)
              | None => count_digits r
              end
  end.

(** [sys.get_int_max_str_digits()] at its default: [int()] raises
    [ValueError] on a decimal string with more digits than this (leading
    zeros count). *)
Definition max_str_digits : Z := 4300.

(** The digits after the optional sign. *)
Definition parse_decimal (l : list ascii) : option Z :=
  if max_str_digits <? Z.of_nat (count_digits l) then None
  else parse_digits l 0 false.

Definition py_int (s : string) : option Z :=
  match strip (list_ascii_of_string s) with
  | c :: r =>
      if Ascii.eqb c "-"%char then option_map Z.opp (parse_decimal r)
      else if Ascii.eqb c "+"%char then parse_decimal r
      else parse_decimal (c :: r)
  | [] => None
  end.

(** ** [parse_csv] *)

Section Loader.

(** the global [penalize_below_n_preferences] *)
Variable t : Z.

(** Per student: (unspecified topic indices, specified (topic, preference)). *)
Definition student_prefs : Type := (list nat * list (nat * Z))%type.

(** One iteration of the inner loop (lines 98-111). *)
Definition read_cell (fields : list (list string)) (student : nat)
    (st : student_prefs) (topic : nat) : result student_prefs :=
  let '(unspecified, specified) := st in
  row <- index fields (S student) ;;
  preference_string <- index row (S topic) ;;
  if String.eqb preference_string "" then Ok (unspecified ++ [topic], specified)
  else
    match py_int preference_string with
    | None => Err (ValueError_int preference_string)
    | Some p =>
        if p <? 1 then Err (ValueError_less_than_one p student topic)
        else if existsb (Z.eqb p) (map snd specified)
        then Err (ValueError_not_unique p student topic)
        else Ok (unspecified, specified ++ [(topic, p)])
    end.

(** The inner loop over [range(len(topics))] for one student; each student
    only touches its own two lists, so the outer loop is a map. *)
Definition read_student (fields : list (list string)) (n_topics : nat)
    (student : nat) : result student_prefs :=
  fold_result (read_cell fields student) (seq 0 n_topics) ([], []).

(** Lines 114-119.  [k * (k + 1)] is even, so Python's true division is exact. *)
Definition check_sequence (student : nat) (st : student_prefs) : result unit :=
  let preference_sum := sum_Z (map snd (snd st)) in
  let preference_count := Z.of_nat (length (snd st)) in
  let expected_preference_sum := preference_count * (preference_count + 1) / 2 in
  if negb (expected_preference_sum =? preference_sum)
  then Err (ValueError_not_sequence student) else Ok tt.

Fixpoint check_from (student : nat) (acc : list student_prefs) : result unit :=
  match acc with
  | [] => Ok tt
  | st :: rest => _ <- check_sequence student st ;; check_from (S student) rest
  end.

(** Python's [max()] of a list: raises on an empty list. *)
Definition py_max (l : list Z) : result Z :=
  match l with
  | [] => Err ValueError_max_empty
  | p :: ps => Ok (fold_left Z.max ps p)
  end.

(** Lines 123-135 for one student. *)
Definition merge_student (student : nat) (st : student_prefs)
    : result (list (nat * nat * Z)) :=
  let '(unspecified, specified) := st in
  let preference_value_for_unspecified := t + 1 in
  v <- (if (0 <? length specified)%nat
        then max_preference <- py_max (map snd specified) ;;
             Ok (max_preference + t)
        else Ok preference_value_for_unspecified) ;;
  let specified' := specified ++ map (fun u => (u, v)) unspecified in
  Ok (map (fun '(topic, preference) => (student, topic, preference)) specified').

Fixpoint merge_from (student : nat) (acc : list student_prefs)
    : result (list (nat * nat * Z)) :=
  match acc with
  | [] => Ok []
  | st :: rest =>
      here <- merge_student student st ;;
      others <- merge_from (S student) rest ;;
      Ok (here ++ others)
  end.

Definition parse_csv (fields : list (list string))
    : result (list string * list string * list (nat * nat * Z)) :=
  header <- index fields 0 ;;
  let topics := skipn 1 header in
  students <- map_result (fun row => index row 0) (skipn 1 fields) ;;
  acc <- map_result (read_student fields (length topics)) (seq 0 (length students)) ;;
  _ <- check_from 0 acc ;;
  preferences <- merge_from 0 acc ;;
  Ok (students, topics, preferences).

End Loader.

(** ** [solve_assignment_problem] *)

(** [l[i] = x]; raises when [i] is out of range. *)
Fixpoint set_nth {A} (l : list A) (i : nat) (x : A) : result (list A) :=
  match l, i with
  | [], _ => Err IndexError
  | _ :: l', O => Ok (x :: l')
  | y :: l', S i' => r <- set_nth l' i' x ;; Ok (y :: r)
  end.

(** ** float64, as far as the solver uses it

    numpy keeps the cost matrix as float64.  A float64 obtained from a
    Python int is an integer, and so is a sum of such floats unless it
    overflows; they are kept as [Z].  Other float64 values (the average)
    are rationals, infinities or nan.  The sign of a zero is not modelled:
    no value here depends on it. *)

(** [num / den] rounded to the nearest integer, ties to even
    ([num >= 0], [den > 0]). *)
Definition round_div_even (num den : Z) : Z :=
  let q := num / den in
  match Z.compare (2 * (num mod den)) den with
  | Lt => q
  | Gt => q + 1
  | Eq => if Z.even q then q else q + 1
  end.

(** The nearest float64 to the integer [z], ties to even, the exponent
    range aside: [z] kept to 53 significant bits. *)
Definition round_Z (z : Z) : Z :=
  let a := Z.abs z in
  if Z.log2 a <=? 52 then z
  else let e := Z.log2 a - 52 in Z.sgn z * (round_div_even a (2 ^ e) * 2 ^ e).

(** A rounded value that no finite float64 holds. *)
Definition float_overflow (r : Z) : bool := 2 ^ 1024 <=? Z.abs r.

(** [float(z)] of a Python int, as numpy does when storing [z] in a float64
    array: correctly rounded, [OverflowError] when out of range. *)
Definition int_to_float (z : Z) : result Z :=
  let r := round_Z z in
  if float_overflow r then Err OverflowError else Ok r.

(** A float64 that holds an integer, an infinity, or nan. *)
Inductive ifloat : Type :=
| IFin (z : Z)
| IInf (positive : bool)
| INaN.

(** The float64 nearest to the exact integer result [z] (to an infinity
    on overflow). *)
Definition ifloat_of_Z (z : Z) : ifloat :=
  let r := round_Z z in if float_overflow r then IInf (0 <? z) else IFin r.

(** IEEE addition, round to nearest even. *)
Definition fadd (a b : ifloat) : ifloat :=
  match a, b with
  | IFin x, IFin y => ifloat_of_Z (x + y)
  | INaN, _ => INaN
  | _, INaN => INaN
  | IInf p, IInf q => if Bool.eqb p q then IInf p else INaN
  | IInf p, IFin _ => IInf p
  | IFin _, IInf p => IInf p
  end.

(** [res += a[i]] for each [a[i]] in turn. *)
Definition fsum_from (res : ifloat) (l : list Z) : ifloat :=
  fold_left (fun r x => fadd r (IFin x)) l res.

(** The first [q] blocks of 8 elements. *)
Fixpoint chunks8 (q : nat) (l : list Z) : list (list Z) :=
  match q with
  | O => []
  | S q' => firstn 8 l :: chunks8 q' (skipn 8 l)
  end.

(** [r[j] += a[i + j]] for [j < 8]. *)
Definition add_block (r : list ifloat) (blk : list Z) : list ifloat :=
  map (fun '(x, y) => fadd x (IFin y)) (combine r blk).

(** numpy's [pairwise_sum] for float64 (the inner loop of [add.reduce]):
    below 8 elements a plain loop; up to 128, eight accumulators over blocks
    of 8, combined pairwise, then the remaining elements; beyond, the two
    halves (the first one's length a multiple of 8) summed separately.
    [fuel] bounds the recursion; [length a] is enough, as both halves are
    shorter. *)
Fixpoint pairwise_sum (fuel : nat) (a : list Z) : ifloat :=
  let n := length a in
  if Nat.ltb n 8 then fsum_from (IFin 0) a
  else if Nat.leb n 128 then
    let blocks := chunks8 (n / 8) a in
    let r := fold_left add_block (tl blocks) (map IFin (hd [] blocks)) in
    let r_ j := nth j r INaN in
    let res := fadd (fadd (fadd (r_ 0%nat) (r_ 1%nat)) (fadd (r_ 2%nat) (r_ 3%nat)))
                    (fadd (fadd (r_ 4%nat) (r_ 5%nat)) (fadd (r_ 6%nat) (r_ 7%nat))) in
    fsum_from res (skipn (8 * (n / 8)) a)
  else
    match fuel with
    | O => INaN
    | S fuel' =>
        let n2 := (n / 2 - (n / 2) mod 8)%nat in
        fadd (pairwise_sum fuel' (firstn n2 a)) (pairwise_sum fuel' (skipn n2 a))
    end.

(** [a.sum()] on a float64 array: [add.reduce], which starts from add's
    identity 0.0 and adds the pairwise sum of all elements. *)
Definition np_sum (a : list Z) : ifloat := fadd (IFin 0) (pairwise_sum (length a) a).

(** A float64 in general. *)
Inductive float64 : Type :=
| Fnum (q : Q)
| Finf (positive : bool)
| Fnan.

(** floor(log2(a / b)) for [a, b > 0]. *)
Definition floor_log2_frac (a b : Z) : Z :=
  let l := Z.log2 a - Z.log2 b in
  if 0 <=? l then (if b * 2 ^ l <=? a then l else l - 1)
  else (if b <=? a * 2 ^ (- l) then l else l - 1).

(** The float64 nearest to the rational [q], ties to even: 53 significant
    bits, subnormals below 2^-1022, an infinity from 2^1024 on. *)
Definition round_Q (q : Q) : float64 :=
  let a := Z.abs (Qnum q) in
  let b := Zpos (Qden q) in
  if a =? 0 then Fnum 0 else
  let e := Z.max (floor_log2_frac a b - 52) (-1074) in
  let m := if 0 <=? e then round_div_even a (b * 2 ^ e)
           else round_div_even (a * 2 ^ (- e)) b in
  let v := if 0 <=? e then inject_Z (m * 2 ^ e) else Qmake m (Z.to_pos (2 ^ (- e))) in
  if Qle_bool (inject_Z (2 ^ 1024)) v then Finf (0 <? Qnum q)
  else Fnum (Qred (if 0 <? Qnum q then v else - v)%Q).

(** [x / y] for float64 integers [x] and [y]. *)
Definition float_div (x y : Z) : float64 :=
  if y =? 0 then (if x =? 0 then Fnan else Finf (0 <? x))
  else round_Q (inject_Z x / inject_Z y)%Q.

(** The Python int [z] as a float64 operand of a numpy comparison: rounded
    to the nearest float64.  Past the float64 range it is taken as an
    infinity, which orders it against every finite float as Python's exact
    int/float comparison does (an infinite average cannot reach the
    comparison: printing the total raises first). *)
Definition float_of_int (z : Z) : float64 :=
  let r := round_Z z in
  if float_overflow r then Finf (0 <? z) else Fnum (inject_Z r).

(** [a > b] on float64 values (false whenever nan is involved). *)
Definition float_gt (a b : float64) : bool :=
  match a, b with
  | Fnan, _ => false
  | _, Fnan => false
  | Finf true, Finf true => false
  | Finf true, _ => true
  | Finf false, _ => false
  | Fnum _, Finf p => negb p
  | Fnum x, Fnum y => negb (Qle_bool x y)
  end.

(** ["%d" % x] on a float64: [int(x)]; raises on an infinity or nan. *)
Definition format_int (x : ifloat) : result Z :=
  match x with
  | IFin z => Ok z
  | IInf _ => Err OverflowError
  | INaN => Err ValueError_nan
  end.

(** [np.zeros((n, m))]: float64 zeros. *)
Definition zeros (n m : nat) : list (list Z) := repeat (repeat 0 m) n.

(** [cost_matrix[student, topic] = cost]: the indices are checked (numpy
    raises [IndexError] out of range; they are never negative here), then
    the int is converted to float64. *)
Definition set_cell (M : list (list Z)) (student topic : nat) (cost : Z)
    : result (list (list Z)) :=
  row <- index M student ;;
  _ <- index row topic ;;
  v <- int_to_float cost ;;
  row' <- set_nth row topic v ;;
  set_nth M student row'.

(** Lines 41-44. *)
Definition build_cost_matrix (n_students n_topics : nat)
    (preferences : list (nat * nat * Z)) : result (list (list Z)) :=
  fold_result (fun M '(student, topic, cost) => set_cell M student topic cost)
    preferences (zeros n_students n_topics).

(** [M[i, j]]. *)
Definition get_cell (M : list (list Z)) (i j : nat) : result Z :=
  row <- index M i ;; index row j.

(** [cost_matrix[row_indices, col_indices]]: numpy fancy indexing, with the
    broadcasting of a length-1 index array. *)
Definition fancy_index (M : list (list Z)) (rows cols : list nat)
    : result (list Z) :=
  pairs <- (if Nat.eqb (length rows) (length cols) then Ok (combine rows cols)
            else if Nat.eqb (length rows) 1 then Ok (map (pair (hd O rows)) cols)
            else if Nat.eqb (length cols) 1 then Ok (map (fun r => (r, hd O cols)) rows)
            else Err IndexError) ;;
  map_result (fun '(i, j) => get_cell M i j) pairs.

(** The printed report, one constructor per [print]. *)
Inductive line : Type :=
| LTotal (total_cost : Z)                 (* "Total cost: %d" *)
| LAverage (average_cost : float64)       (* "Average cost: %.2f" *)
| LWarning (average_cost : float64) (t : Z) (* "WARNING! Average cost ..." *)
| LSolution                               (* "Solution: " *)
| LAssign (student topic : string).       (* "Student %s gets topic %s" *)

(** [total_cost / len(students)]: numpy float64 division by the length
    converted to float64; [0.0 / 0] is nan. *)
Definition average (total_cost : Z) (n_students : nat) : float64 :=
  float_div total_cost (round_Z (Z.of_nat n_students)).

(** [average_cost > penalize_below_n_preferences]: the int is converted to
    float64 and compared as float64. *)
Definition above_threshold (t : Z) (average_cost : float64) : bool :=
  float_gt average_cost (float_of_int t).

(** One iteration of the report loop (lines 65-68). *)
Definition report_line (students topics : list string) (row_indices col_indices : list nat)
    (i : nat) : result line :=
  student_index <- index row_indices i ;;
  topic_index <- index col_indices i ;;
  s <- index students student_index ;;
  tp <- index topics topic_index ;;
  Ok (LAssign s tp).

Section Solver.

Variable t : Z.

(** [scipy.optimize.linear_sum_assignment]: external, returns the row and the
    column index arrays. *)
Variable linear_sum_assignment : list (list Z) -> list nat * list nat.

Definition solve_assignment_problem (students topics : list string)
    (preferences : list (nat * nat * Z)) : result (list line) :=
  cost_matrix <- build_cost_matrix (length students) (length topics) preferences ;;
  let '(row_indices, col_indices) := linear_sum_assignment cost_matrix in
  matched <- fancy_index cost_matrix row_indices col_indices ;;
  total_cost <- format_int (np_sum matched) ;;
  let average_cost := average total_cost (length students) in
  let warning :=
    if above_threshold t average_cost then [LWarning average_cost t] else [] in
  assigned <- map_result (report_line students topics row_indices col_indices)
                (seq 0 (length row_indices)) ;;
  Ok ([LTotal total_cost; LAverage average_cost] ++ warning ++ [LSolution] ++ assigned).

(** Lines 160-161. *)
Definition main (fields : list (list string)) : result (list line) :=
  r <- parse_csv t fields ;;
  let '(students, topics, preferences) := r in
  solve_assignment_problem students topics preferences.

End Solver.

(** ** A model of the external matching routine

    Used only to run the program on concrete inputs.  Following scipy's
    documentation: a rectangular n x m matrix is accepted in both
    orientations, min(n, m) pairs are returned, row indices ascending, with
    minimal total cost.  Exhaustive search; among optimal matchings the first
    one enumerated is returned (scipy's own tie-break is not modelled). *)

Fixpoint injections (k : nat) (avail : list nat) : list (list nat) :=
  match k with
  | O => [[]]
  | S k' => flat_map (fun c => map (cons c) (injections k' (remove Nat.eq_dec c avail))) avail
  end.

Definition matching_cost (M : list (list Z)) (cols : list nat) : Z :=
  sum_Z (map (fun '(i, j) => nth j (nth i M []) 0) (combine (seq 0 (length cols)) cols)).

Fixpoint first_min (M : list (list Z)) (best : list nat) (cands : list (list nat)) : list nat :=
  match cands with
  | [] => best
  | c :: cs => if matching_cost M c <? matching_cost M best
               then first_min M c cs else first_min M best cs
  end.

Definition best_matching (M : list (list Z)) (k m : nat) : list nat :=
  match injections k (seq 0 m) with
  | [] => []
  | c :: cs => first_min M c cs
  end.

Definition transpose (M : list (list Z)) (m : nat) : list (list Z) :=
  map (fun j => map (fun row => nth j row 0) M) (seq 0 m).

Fixpoint position (x : nat) (l : list nat) : option nat :=
  match l with
  | [] => None
  | y :: l' => if Nat.eqb x y then Some O else option_map S (position x l')
  end.

Definition lsa_model (M : list (list Z)) : list nat * list nat :=
  let n := length M in
  let m := length (hd [] M) in
  if Nat.leb n m then (seq 0 n, best_matching M n m)
  else
    let col_rows := best_matching (transpose M m) m n in
    let pairs := flat_map (fun r => match position r col_rows with
                                    | Some j => [(r, j)] | None => [] end) (seq 0 n) in
    (map fst pairs, map snd pairs).

(** ** What the claims talk about, read off the input table *)

(** The cells of a data row that [parse_csv] reads: [row[1..m]]. *)
Definition cells_of (m : nat) (row : list string) : list string :=
  firstn m (skipn 1 row).

(** The specified (non-empty) cells among them, in column order. *)
Definition specified_cells (m : nat) (row : list string) : list string :=
  filter (fun c => negb (String.eqb c "")) (cells_of m row).

Fixpoint parse_all (cs : list string) : option (list Z) :=
  match cs with
  | [] => Some []
  | c :: cs' =>
      match py_int c, parse_all cs' with
      | Some p, Some ps => Some (p :: ps)
      | _, _ => None
      end
  end.

(** The preference values a student specified. *)
Definition row_values (m : nat) (row : list string) : option (list Z) :=
  parse_all (specified_cells m row).

Fixpoint nodupb (l : list Z) : bool :=
  match l with
  | [] => true
  | x :: l' => negb (existsb (Z.eqb x) l') && nodupb l'
  end.

Definition sequence_ok (vs : list Z) : bool :=
  let k := Z.of_nat (length vs) in k * (k + 1) / 2 =? sum_Z vs.

(** The per-cell checks (lines 106-109) and the cells being present. *)
Definition cells_ok (m : nat) (row : list string) : bool :=
  (Nat.ltb m (length row) || Nat.eqb m 0) &&
  match row_values m row with
  | Some vs => forallb (Z.leb 1) vs && nodupb vs
  | None => false
  end.

(** A data row the loader accepts, for a header with [m] topics. *)
Definition row_accepted (m : nat) (row : list string) : bool :=
  Nat.ltb m (length row) &&
  match row_values m row with
  | Some vs => forallb (Z.leb 1) vs && nodupb vs && sequence_ok vs
  | None => false
  end.

Definition table_accepted (fields : list (list string)) : bool :=
  match fields with
  | [] => false
  | header :: rows => forallb (row_accepted (length (skipn 1 header))) rows
  end.

(** The "Student %s gets topic %s" lines of a report. *)
Definition is_assign_line (l : line) : bool :=
  match l with LAssign _ _ => true | _ => false end.

(** [1, ..., k] as integers. *)
Definition zrange (k : nat) : list Z := map Z.of_nat (seq 1 k).

(** The part of [parse_csv] before the merge (lines 80-119): everything that
    does not depend on the threshold. *)
Definition load_phase (fields : list (list string))
    : result (list string * list string * list student_prefs) :=
  header <- index fields 0 ;;
  let topics := skipn 1 header in
  students <- map_result (fun row => index row 0) (skipn 1 fields) ;;
  acc <- map_result (read_student fields (length topics)) (seq 0 (length students)) ;;
  _ <- check_from 0 acc ;;
  Ok (students, topics, acc).

(** Whether the cell [fields[s+1][x+1]] exists and is empty. *)
Definition cell_empty (fields : list (list string)) (s x : nat) : bool :=
  match nth_error fields (S s) with
  | Some row => match nth_error row (S x) with
                | Some c => String.eqb c ""
                | None => false
                end
  | None => false
  end.



(** Triple [b] is triple [a] with the cost shifted by [d] when the cell it
    comes from is empty. *)
Definition shifted_by (fields : list (list string)) (d : Z)
    (a b : nat * nat * Z) : Prop :=
  let '(s, x, c1) := a in let '(s', y, c2) := b in
  s = s' /\ x = y /\ c2 = c1 + (if cell_empty fields s x then d else 0).



(** Python's [str.isspace] on a non-empty ASCII string. *)
Definition is_space_string (w : string) : bool :=
  forallb is_py_space (list_ascii_of_string w).

Section Examples.
Local Open Scope string_scope.

(** The spec's end-to-end scenario, with student s3 ranking A=2, C=1. *)
Definition scenario_fields : list (list string) :=
  [["X";"A";"B";"C"]; ["s1";"1";"2";"3"]; ["s2";"";"1";""]; ["s3";"2";"";"1"]].

Definition scenario_students : list string := ["s1";"s2";"s3"].

Definition scenario_topics : list string := ["A";"B";"C"].

Definition scenario_prefs : list (nat * nat * Z) :=
  [(0%nat,0%nat,1);(0%nat,1%nat,2);(0%nat,2%nat,3);
   (1%nat,1%nat,1);(1%nat,0%nat,4);(1%nat,2%nat,4);
   (2%nat,0%nat,2);(2%nat,2%nat,1);(2%nat,1%nat,5)].

Example py_int_examples :
  py_int " 12 " = Some 12 /\ py_int "-3" = Some (-3) /\ py_int "1_0" = Some 10
  /\ py_int "1__0" = None /\ py_int "" = None /\ py_int "x" = None
  /\ py_int "007" = Some 7.
Proof. repeat split; reflexivity. Qed.

(** [int()]'s digit limit: 4301 digits are refused, leading zeros included. *)
Example py_int_digit_limit :
  py_int (string_of_list_ascii (repeat "1"%char 4301)) = None /\
  py_int (string_of_list_ascii ("-"%char :: repeat "1"%char 4301)) = None /\
  py_int (string_of_list_ascii (repeat "0"%char 4300 ++ ["1"%char])) = None /\
  py_int (string_of_list_ascii (repeat "0"%char 4299 ++ ["1"%char])) = Some 1.
Proof. vm_compute. repeat split; reflexivity. Qed.

(** The end-to-end scenario of the spec, with student s3 ranking A=2, C=1
    (the spec's A=3, C=1 has a gap and is rejected, see below). *)
Example parse_csv_scenario :
  parse_csv 3 [["X";"A";"B";"C"]; ["s1";"1";"2";"3"]; ["s2";"";"1";""];
               ["s3";"2";"";"1"]]
  = Ok (["s1";"s2";"s3"], ["A";"B";"C"],
        [(0%nat,0%nat,1);(0%nat,1%nat,2);(0%nat,2%nat,3);
         (1%nat,1%nat,1);(1%nat,0%nat,4);(1%nat,2%nat,4);
         (2%nat,0%nat,2);(2%nat,2%nat,1);(2%nat,1%nat,5)]).
Proof. reflexivity. Qed.

Example parse_csv_scenario_gap :
  parse_csv 3 [["X";"A";"B";"C"]; ["s1";"1";"2";"3"]; ["s2";"";"1";""];
               ["s3";"3";"";"1"]]
  = Err (ValueError_not_sequence 2).
Proof. reflexivity. Qed.

Example lsa_model_examples :
  lsa_model [[1;2;3];[4;1;4];[2;5;1]] = ([0;1;2]%nat, [0;1;2]%nat)
  /\ lsa_model [[5];[1]] = ([1]%nat, [0]%nat)
  /\ lsa_model [[3;1];[1;3];[2;2]] = ([0;1]%nat, [1;0]%nat).
Proof. repeat split; reflexivity. Qed.

Example main_scenario :
  main 3 lsa_model [["X";"A";"B";"C"]; ["s1";"1";"2";"3"]; ["s2";"";"1";""];
                    ["s3";"2";"";"1"]]
  = Ok [LTotal 3; LAverage (Fnum 1); LSolution;
        LAssign "s1" "A"; LAssign "s2" "B"; LAssign "s3" "C"].
Proof. reflexivity. Qed.

End Examples.

(** ** The error monad *)

Lemma bind_ok {A B} (m : result A) (k : A -> result B) (b : B) :
  bind m k = Ok b <-> exists a, m = Ok a /\ k a = Ok b.
Proof.
  destruct m as [a|e]; simpl; split.
  - intros H; exists a; auto.
  - intros (a' & Ha & Hk); inversion Ha; subst; exact Hk.
  - discriminate.
  - intros (a' & Ha & _); discriminate.
Qed.

Lemma is_ok_bind {A B} (m : result A) (k : A -> result B) :
  is_ok (bind m k) = match m with Ok a => is_ok (k a) | Err _ => false end.
Proof. destruct m; reflexivity. Qed.

Lemma fold_result_app {A B} (f : A -> B -> result A) l1 l2 a :
  fold_result f (l1 ++ l2) a = (x <- fold_result f l1 a ;; fold_result f l2 x).
Proof.
  revert a; induction l1 as [|b l1 IH]; intros a; simpl; [reflexivity|].
  destruct (f a b); simpl; auto.
Qed.

Lemma map_result_ok {A B} (f : A -> result B) l r :
  map_result f l = Ok r <-> Forall2 (fun a b => f a = Ok b) l r.
Proof.
  revert r; induction l as [|a l IH]; intros r; simpl.
  - split; [intros H; inversion H; constructor | intros H; inversion H; reflexivity].
  - destruct (f a) as [b|e] eqn:Hf; simpl.
    + destruct (map_result f l) as [bs|e] eqn:Hm; simpl.
      * split.
        -- intros H; inversion H; subst; constructor; auto; apply IH; reflexivity.
        -- intros H; inversion H; subst.
           rewrite Hf in H2; inversion H2; subst.
           apply IH in H4; inversion H4; reflexivity.
      * split; [discriminate|].
        intros H; inversion H; subst. apply IH in H4; discriminate.
    + split; [discriminate|]. intros H; inversion H; subst; congruence.
Qed.

Lemma is_ok_map_result {A B} (f : A -> result B) l :
  is_ok (map_result f l) = forallb (fun a => is_ok (f a)) l.
Proof.
  induction l as [|a l IH]; simpl; [reflexivity|].
  destruct (f a); simpl; [|reflexivity].
  destruct (map_result f l); simpl in *; auto.
Qed.

Lemma forallb_map_comp {A B} (f : B -> bool) (g : A -> B) l :
  forallb f (map g l) = forallb (fun a => f (g a)) l.
Proof. induction l; simpl; congruence. Qed.

Lemma forallb_seq_rows {A} (rows : list A) (f : nat -> bool) (g : A -> bool) :
  (forall s row, nth_error rows s = Some row -> f s = g row) ->
  forallb f (seq 0 (length rows)) = forallb g rows.
Proof.
  revert f; induction rows as [|r rows IH]; intros f H; simpl; [reflexivity|].
  rewrite (H 0%nat r eq_refl). f_equal.
  rewrite <- seq_shift, forallb_map_comp.
  apply IH. intros s row Hs. apply (H (S s)). exact Hs.
Qed.

Lemma forallb_Forall2 {A B} (R : A -> B -> Prop) (f : A -> bool) (h : B -> bool) l acc :
  Forall2 R l acc -> (forall a b, In a l -> R a b -> h b = f a) ->
  forallb h acc = forallb f l.
Proof.
  intros HF H; induction HF; simpl; [reflexivity|].
  rewrite (H _ _ (or_introl eq_refl) H0), IHHF; [reflexivity|].
  intros a b Ha; apply H; right; exact Ha.
Qed.

Lemma forallb_impl {A} (f g : A -> bool) l :
  (forall x, f x = true -> g x = true) -> forallb f l = true -> forallb g l = true.
Proof.
  intros H Hf; apply forallb_forall; intros x Hx.
  apply H; apply (proj1 (forallb_forall f l) Hf); exact Hx.
Qed.

Lemma existsb_eqb_In (p : Z) l : existsb (Z.eqb p) l = true <-> In p l.
Proof.
  rewrite existsb_exists; split.
  - intros (x & Hx & E); apply Z.eqb_eq in E; subst; exact Hx.
  - intros H; exists p; split; [exact H | apply Z.eqb_refl].
Qed.

Lemma nodupb_NoDup l : nodupb l = true <-> NoDup l.
Proof.
  induction l as [|x l IH]; simpl.
  - split; [constructor | reflexivity].
  - rewrite andb_true_iff, negb_true_iff, IH; split.
    + intros [H1 H2]; constructor; auto.
      intros Hin; apply (existsb_eqb_In x l) in Hin; congruence.
    + intros H; inversion H; subst; split; auto.
      destruct (existsb (Z.eqb x) l) eqn:E; auto.
      apply existsb_eqb_In in E; contradiction.
Qed.

Lemma forallb_leb1 l : forallb (Z.leb 1) l = true <-> Forall (fun p => 1 <= p) l.
Proof.
  rewrite forallb_forall, Forall_forall; split; intros H x Hx; specialize (H x Hx).
  - apply Z.leb_le; exact H.
  - apply Z.leb_le; exact H.
Qed.

(** ** Lists and tables *)

Lemma firstn_S_nth {A} (l : list A) n x :
  nth_error l n = Some x -> firstn (S n) l = firstn n l ++ [x].
Proof.
  revert n; induction l as [|y l IH]; intros [|n] H; simpl in *; try discriminate.
  - inversion H; reflexivity.
  - rewrite (IH n H); reflexivity.
Qed.

Lemma nth_error_skipn1 {A} (l : list A) n : nth_error (skipn 1 l) n = nth_error l (S n).
Proof. destruct l; simpl; [destruct n|]; reflexivity. Qed.

Lemma parse_all_app a b :
  parse_all (a ++ b) =
  match parse_all a, parse_all b with Some x, Some y => Some (x ++ y) | _, _ => None end.
Proof.
  induction a as [|c a IH]; simpl.
  - destruct (parse_all b); reflexivity.
  - rewrite IH. destruct (py_int c), (parse_all a), (parse_all b); reflexivity.
Qed.

(** The specified cells grow by one cell per topic read. *)
Lemma specified_cells_S m row c :
  nth_error row (S m) = Some c ->
  specified_cells (S m) row =
  specified_cells m row ++ (if String.eqb c "" then [] else [c]).
Proof.
  intros H. unfold specified_cells, cells_of.
  rewrite (firstn_S_nth _ m c); [|rewrite nth_error_skipn1; exact H].
  rewrite filter_app; simpl. destruct (String.eqb c ""); simpl; rewrite ?app_nil_r; reflexivity.
Qed.

(** ** The read phase (lines 96-111), one student at a time *)

Section ReadPhase.

Variable fields : list (list string).
Variable s : nat.
Variable row : list string.
Hypothesis Hrow : nth_error fields (S s) = Some row.

Lemma read_student_S m :
  read_student fields (S m) s =
  (st <- read_student fields m s ;; read_cell fields s st m).
Proof.
  unfold read_student. rewrite seq_S, fold_result_app. simpl.
  destruct (fold_result (read_cell fields s) (seq 0 m) ([], [])) as [st|e]; simpl;
    [|reflexivity].
  destruct (read_cell fields s st m); reflexivity.
Qed.

(** What a successful read of the first [m] cells has recorded. *)
Lemma read_student_sound m u sp :
  read_student fields m s = Ok (u, sp) ->
  (m < length row \/ m = 0)%nat /\
  row_values m row = Some (map snd sp) /\
  Forall (fun p => 1 <= p) (map snd sp) /\ NoDup (map snd sp) /\
  Permutation (map fst sp ++ u) (seq 0 m) /\
  (forall x p, In (x, p) sp ->
     exists c, nth_error row (S x) = Some c /\ c <> ""%string /\ py_int c = Some p) /\
  (forall x, In x u -> nth_error row (S x) = Some ""%string).
Proof.
  revert u sp; induction m as [|m IH]; intros u sp H.
  - unfold read_student in H; simpl in H. inversion H; subst.
    split; [right; reflexivity|]. split; [reflexivity|].
    split; [constructor|]. split; [constructor|]. split; [apply Permutation_refl|].
    split; intros; contradiction.
  - rewrite read_student_S in H.
    destruct (read_student fields m s) as [[u0 sp0]|e] eqn:E; [|discriminate].
    destruct (IH u0 sp0 eq_refl) as (Hlen & Hval & Hpos & Hnd & Hperm & Hsp & Hu).
    destruct (nth_error row (S m)) as [c|] eqn:Hc;
      unfold read_cell, index, bind in H; rewrite Hrow in H; cbv beta iota in H;
      rewrite Hc in H; cbv beta iota in H; [|discriminate].
    assert (Hlt : (S m < length row)%nat) by (apply nth_error_Some; congruence).
    unfold row_values in *. rewrite (specified_cells_S m row c Hc).
    destruct (String.eqb c "") eqn:Ec.
    + inversion H; subst. apply String.eqb_eq in Ec; subst c.
      rewrite app_nil_r. repeat split; auto.
      * rewrite seq_S, app_assoc. apply Permutation_app_tail; exact Hperm.
      * intros x Hx. apply in_app_or in Hx as [Hx|Hx]; [auto|].
        destruct Hx as [<-|[]]; exact Hc.
    + destruct (py_int c) as [p|] eqn:Hp; [|discriminate].
      destruct (p <? 1) eqn:Hp1; [discriminate|].
      destruct (existsb (Z.eqb p) (map snd sp0)) eqn:Hex; [discriminate|].
      inversion H; subst.
      rewrite parse_all_app, Hval. cbn [parse_all]. rewrite Hp. rewrite map_app.
      cbn [map snd].
      repeat split; auto.
      * apply Forall_app; split; auto. constructor; [apply Z.ltb_ge in Hp1; lia|constructor].
      * apply NoDup_app; auto.
        -- constructor; [intros []|constructor].
        -- intros x Hx [Hxp|[]]. subst x. apply existsb_eqb_In in Hx. congruence.
      * rewrite map_app, seq_S. cbn [map fst].
        rewrite <- app_assoc. cbn [app].
        apply Permutation_trans with (map fst sp0 ++ u ++ [m]).
        -- apply Permutation_app_head. apply Permutation_cons_append.
        -- rewrite app_assoc. apply Permutation_app_tail; exact Hperm.
      * intros x q Hx. apply in_app_or in Hx as [Hx|[Hx|[]]]; auto.
        inversion Hx; subst. exists c; repeat split; auto.
        intros ->; discriminate.
Qed.

(** The read phase succeeds when the cells are present and pass the
    per-cell checks. *)
Lemma read_student_complete m vs :
  (m < length row \/ m = 0)%nat ->
  row_values m row = Some vs ->
  Forall (fun p => 1 <= p) vs -> NoDup vs ->
  exists u sp, read_student fields m s = Ok (u, sp).
Proof.
  revert vs; induction m as [|m IH]; intros vs Hlen Hval Hpos Hnd.
  - exists [], []; reflexivity.
  - assert (Hlt : (S m < length row)%nat) by lia.
    destruct (nth_error row (S m)) as [c|] eqn:Hc;
      [|apply nth_error_None in Hc; lia].
    unfold row_values in Hval. rewrite (specified_cells_S m row c Hc), parse_all_app in Hval.
    destruct (parse_all (specified_cells m row)) as [vs1|] eqn:Hv1; [|discriminate].
    destruct (parse_all (if String.eqb c "" then [] else [c])) as [vs2|] eqn:Hv2;
      [|discriminate].
    inversion Hval; subst vs.
    apply Forall_app in Hpos as [Hpos1 Hpos2].
    destruct (IH vs1 ltac:(lia) Hv1 Hpos1 (NoDup_app_remove_r _ _ Hnd)) as (u0 & sp0 & E).
    destruct (read_student_sound m u0 sp0 E) as (_ & Hval0 & _).
    unfold row_values in Hval0. rewrite Hv1 in Hval0. inversion Hval0; subst vs1.
    rewrite read_student_S, E. unfold read_cell, index, bind. rewrite Hrow.
    cbv beta iota. rewrite Hc. cbv beta iota.
    destruct (String.eqb c "") eqn:Ec; [eexists; eexists; reflexivity|].
    simpl in Hv2. destruct (py_int c) as [p|] eqn:Hp; [|discriminate].
    inversion Hv2; subst vs2.
    inversion Hpos2; subst.
    assert (Hp1 : (p <? 1) = false) by (apply Z.ltb_ge; lia). rewrite Hp1.
    destruct (existsb (Z.eqb p) (map snd sp0)) eqn:Hex.
    + apply existsb_eqb_In in Hex.
      exfalso. apply (NoDup_remove_2 (map snd sp0) [] p Hnd).
      rewrite app_nil_r; exact Hex.
    + eexists; eexists; reflexivity.
Qed.

End ReadPhase.

Lemma is_ok_read_student fields s row m :
  nth_error fields (S s) = Some row ->
  is_ok (read_student fields m s) = cells_ok m row.
Proof.
  intros Hrow. unfold cells_ok.
  destruct (read_student fields m s) as [[u sp]|e] eqn:E; simpl.
  - destruct (read_student_sound fields s row Hrow m u sp E)
      as (Hlen & Hval & Hpos & Hnd & _).
    rewrite Hval. apply forallb_leb1 in Hpos. apply nodupb_NoDup in Hnd.
    rewrite Hpos, Hnd. destruct Hlen as [Hlen|Hlen].
    + apply Nat.ltb_lt in Hlen; rewrite Hlen; reflexivity.
    + subst m. rewrite orb_true_r. reflexivity.
  - symmetry. apply not_true_iff_false. intros H.
    apply andb_true_iff in H as [Hlen H].
    destruct (row_values m row) as [vs|] eqn:Hv; [|discriminate].
    apply andb_true_iff in H as [Hpos Hnd].
    apply forallb_leb1 in Hpos. apply nodupb_NoDup in Hnd.
    assert (Hlen' : (m < length row \/ m = 0)%nat).
    { apply orb_true_iff in Hlen as [H|H]; [left; apply Nat.ltb_lt; exact H|].
      right; apply Nat.eqb_eq; exact H. }
    destruct (read_student_complete fields s row Hrow m vs Hlen' Hv Hpos Hnd) as (u & sp & E').
    congruence.
Qed.

(** ** The check phase (lines 114-119) and the merge phase (lines 123-135) *)

Lemma is_ok_check_from s acc :
  is_ok (check_from s acc) = forallb (fun st => sequence_ok (map snd (snd st))) acc.
Proof.
  revert s; induction acc as [|st acc IH]; intros s; simpl; [reflexivity|].
  unfold check_sequence, sequence_ok. rewrite length_map.
  destruct (_ =? _); simpl; auto.
Qed.

Section Merge.

Variable t : Z.

(** The value [merge_student] gives to unspecified topics. *)
Definition default_value (sp : list (nat * Z)) : Z :=
  match map snd sp with
  | [] => t + 1
  | p :: ps => fold_left Z.max ps p + t
  end.

Definition student_triples (s : nat) (st : student_prefs) : list (nat * nat * Z) :=
  map (fun '(x, p) => (s, x, p))
      (snd st ++ map (fun x => (x, default_value (snd st))) (fst st)).

Fixpoint merged (s : nat) (acc : list student_prefs) : list (nat * nat * Z) :=
  match acc with
  | [] => []
  | st :: rest => student_triples s st ++ merged (S s) rest
  end.

Lemma merge_student_ok s st : merge_student t s st = Ok (student_triples s st).
Proof.
  destruct st as [u sp]. unfold merge_student, student_triples, default_value. simpl.
  destruct sp as [|[x p] sp]; simpl; reflexivity.
Qed.

Lemma merge_from_ok s acc : merge_from t s acc = Ok (merged s acc).
Proof.
  revert s; induction acc as [|st acc IH]; intros s; simpl; [reflexivity|].
  rewrite merge_student_ok, IH. reflexivity.
Qed.

End Merge.

(** ** The shape of a successful load *)

Lemma students_phase rows students :
  map_result (fun row : list string => index row 0) rows = Ok students ->
  length students = length rows /\ Forall (fun row => row <> []) rows.
Proof.
  intros H. apply map_result_ok in H.
  induction H as [|row st rows sts Hr _ [IHl IHf]]; simpl; [split; auto|].
  split; [congruence|]. constructor; auto.
  intros ->; discriminate.
Qed.

Lemma parse_csv_ok t fields students topics prefs :
  parse_csv t fields = Ok (students, topics, prefs) ->
  exists header rows acc,
    fields = header :: rows /\ topics = skipn 1 header /\
    length students = length rows /\ Forall (fun row => row <> []) rows /\
    Forall2 (fun s st => read_student fields (length topics) s = Ok st)
            (seq 0 (length rows)) acc /\
    forallb (fun st => sequence_ok (map snd (snd st))) acc = true /\
    prefs = merged t 0 acc.
Proof.
  intros H. unfold parse_csv in H.
  destruct fields as [|header rows]; [discriminate|].
  unfold index at 1 in H. cbn [nth_error bind] in H.
  change (skipn 1 (header :: rows)) with rows in H.
  destruct (map_result (fun row : list string => index row 0) rows) as [sts|e] eqn:Hs;
    cbn [bind] in H; [|discriminate].
  destruct (students_phase rows sts Hs) as [Hlen Hne].
  destruct (map_result (read_student (header :: rows) (length (skipn 1 header)))
              (seq 0 (length sts))) as [acc|e] eqn:Hr; cbn [bind] in H; [|discriminate].
  destruct (check_from 0 acc) as [[]|e] eqn:Hc; cbn [bind] in H; [|discriminate].
  rewrite merge_from_ok in H. cbn [bind] in H. inversion H; subst.
  exists header, rows, acc. repeat split; auto.
  - rewrite <- Hlen. apply map_result_ok; exact Hr.
  - rewrite <- (is_ok_check_from 0), Hc; reflexivity.
Qed.

Lemma row_accepted_cells_ok m row : row_accepted m row = true -> cells_ok m row = true.
Proof.
  unfold row_accepted, cells_ok. intros H.
  apply andb_true_iff in H as [Hlen H]. rewrite Hlen. simpl.
  destruct (row_values m row); [|discriminate].
  apply andb_true_iff in H as [H _]; exact H.
Qed.

Lemma row_accepted_nonempty m row :
  row_accepted m row = true -> is_ok (index row 0) = true.
Proof.
  unfold row_accepted. intros H. apply andb_true_iff in H as [Hlen _].
  apply Nat.ltb_lt in Hlen. unfold index.
  destruct row; simpl in *; [lia|reflexivity].
Qed.

(** Once every student's read succeeded, a row is accepted exactly when its
    student passes the sequence check. *)
Lemma accepted_rows header rows acc :
  Forall (fun row => row <> []) rows ->
  Forall2 (fun s st => read_student (header :: rows) (length (skipn 1 header)) s = Ok st)
          (seq 0 (length rows)) acc ->
  forallb (row_accepted (length (skipn 1 header))) rows =
  forallb (fun st => sequence_ok (map snd (snd st))) acc.
Proof.
  intros Hne HF.
  rewrite <- (forallb_seq_rows rows
                (fun s => match nth_error rows s with
                          | Some row => row_accepted (length (skipn 1 header)) row
                          | None => false end)
                (row_accepted (length (skipn 1 header))));
    [|intros s row Hs; rewrite Hs; reflexivity].
  symmetry. apply (forallb_Forall2 _ _ _ _ _ HF).
  intros s [u sp] Hin Hread. apply in_seq in Hin.
  destruct (nth_error rows s) as [row|] eqn:Hs; [|apply nth_error_None in Hs; lia].
  assert (Hrow : nth_error (header :: rows) (S s) = Some row) by exact Hs.
  destruct (read_student_sound _ _ _ Hrow _ _ _ Hread) as (Hlen & Hval & Hpos & Hnd & _).
  assert (Hne' : row <> []).
  { rewrite Forall_forall in Hne. apply Hne. eapply nth_error_In; exact Hs. }
  unfold row_accepted. rewrite Hval.
  apply forallb_leb1 in Hpos. apply nodupb_NoDup in Hnd. rewrite Hpos, Hnd.
  assert (Hlt : (length (skipn 1 header) < length row)%nat).
  { destruct Hlen as [Hlen|Hlen]; [exact Hlen|]. rewrite Hlen.
    destruct row; [contradiction|simpl; lia]. }
  apply Nat.ltb_lt in Hlt. rewrite Hlt. reflexivity.
Qed.

(** The loader's acceptance, row by row. *)
Lemma parse_csv_accepts t fields :
  is_ok (parse_csv t fields) = table_accepted fields.
Proof.
  destruct fields as [|header rows]; [reflexivity|].
  unfold parse_csv. unfold index at 1. cbn [nth_error bind].
  change (skipn 1 (header :: rows)) with rows. cbv beta iota delta [table_accepted].
  rewrite is_ok_bind.
  destruct (map_result (fun row : list string => index row 0) rows) as [sts|e] eqn:Hs.
  - destruct (students_phase rows sts Hs) as [Hlen Hne].
    rewrite is_ok_bind.
    destruct (map_result (read_student (header :: rows) (length (skipn 1 header))) (seq 0 (length sts)))
      as [acc|e] eqn:Hr.
    + apply map_result_ok in Hr. rewrite Hlen in Hr.
      rewrite (accepted_rows header rows acc Hne Hr).
      rewrite <- (is_ok_check_from 0).
      rewrite is_ok_bind. destruct (check_from 0 acc); [|reflexivity].
      rewrite merge_from_ok; reflexivity.
    + symmetry. apply not_true_iff_false. intros Hacc.
      assert (Hok : is_ok (map_result (read_student (header :: rows) (length (skipn 1 header))) (seq 0 (length sts))) = true).
      { rewrite is_ok_map_result, Hlen.
        rewrite (forallb_seq_rows rows _ (cells_ok (length (skipn 1 header)))).
        - eapply forallb_impl; [apply row_accepted_cells_ok|exact Hacc].
        - intros s row Hrow. apply is_ok_read_student. exact Hrow. }
      rewrite Hr in Hok; discriminate.
  - symmetry. apply not_true_iff_false. intros Hacc.
    assert (Hok : is_ok (map_result (fun row : list string => index row 0) rows) = true).
    { rewrite is_ok_map_result.
      eapply forallb_impl; [apply row_accepted_nonempty|exact Hacc]. }
    rewrite Hs in Hok; discriminate.
Qed.

(** ** Distinct positive values summing to k(k+1)/2 are exactly 1..k *)

Lemma sum_Z_app a b : sum_Z (a ++ b) = sum_Z a + sum_Z b.
Proof. induction a; simpl; lia. Qed.

Lemma sum_Z_perm l l' : Permutation l l' -> sum_Z l = sum_Z l'.
Proof. induction 1; simpl; lia. Qed.

Lemma length_zrange k : length (zrange k) = k.
Proof. unfold zrange; rewrite length_map, length_seq; reflexivity. Qed.

Lemma In_zrange k x : In x (zrange k) <-> 1 <= x <= Z.of_nat k.
Proof.
  unfold zrange; rewrite in_map_iff; split.
  - intros (n & <- & Hn). apply in_seq in Hn. lia.
  - intros H. exists (Z.to_nat x); split; [lia|]. apply in_seq; lia.
Qed.

Lemma sum_zrange k : 2 * sum_Z (zrange k) = Z.of_nat k * (Z.of_nat k + 1).
Proof.
  induction k as [|k IH]; [reflexivity|].
  unfold zrange in *. rewrite seq_S, map_app, sum_Z_app.
  change (sum_Z (map Z.of_nat [(1 + k)%nat])) with (Z.of_nat (1 + k) + 0). lia.
Qed.

Lemma half_exact (k : nat) :
  Z.of_nat k * (Z.of_nat k + 1) = 2 * (Z.of_nat k * (Z.of_nat k + 1) / 2).
Proof.
  destruct (Z.Even_or_Odd (Z.of_nat k)) as [[j Hj]|[j Hj]]; rewrite Hj.
  - replace (2 * j * (2 * j + 1)) with ((j * (2 * j + 1)) * 2) by ring.
    rewrite Z.div_mul by lia. ring.
  - replace ((2 * j + 1) * (2 * j + 1 + 1)) with (((2 * j + 1) * (j + 1)) * 2) by ring.
    rewrite Z.div_mul by lia. ring.
Qed.

Lemma max_exists (l : list Z) : l <> [] -> exists m, In m l /\ Forall (fun x => x <= m) l.
Proof.
  induction l as [|a l IH]; intros H; [contradiction|].
  destruct l as [|b l].
  - exists a; split; [left; reflexivity|]. constructor; [lia|constructor].
  - destruct (IH ltac:(discriminate)) as (m & Hm & Hle).
    exists (Z.max a m); split.
    + destruct (Z.max_spec a m) as [[_ E]|[_ E]]; rewrite E; [right; exact Hm|left; reflexivity].
    + constructor; [lia|]. eapply Forall_impl; [|exact Hle]. intros x Hx; cbv beta in *; lia.
Qed.

(** k distinct integers >= 1 sum to at least k(k+1)/2, and only [1..k]
    reaches the bound. *)
Lemma sum_distinct_lower k l :
  length l = k -> NoDup l -> Forall (fun x => 1 <= x) l ->
  Z.of_nat k * (Z.of_nat k + 1) <= 2 * sum_Z l /\
  (Z.of_nat k * (Z.of_nat k + 1) = 2 * sum_Z l -> Forall (fun x => x <= Z.of_nat k) l).
Proof.
  revert l; induction k as [|k IH]; intros l Hlen Hnd Hpos.
  - destruct l; [|discriminate]. simpl; split; [lia|constructor].
  - destruct (max_exists l) as (m & Hm & Hle); [intros ->; discriminate|].
    destruct (in_split _ _ Hm) as (a & b & ->).
    set (l' := a ++ b).
    assert (Hperm : Permutation (a ++ m :: b) (m :: l')) by (symmetry; apply Permutation_middle).
    assert (Hsum : sum_Z (a ++ m :: b) = m + sum_Z l') by (rewrite (sum_Z_perm _ _ Hperm); reflexivity).
    assert (Hlen' : length l' = k).
    { apply Permutation_length in Hperm. simpl in Hperm. lia. }
    assert (Hnd' : NoDup l') by (exact (NoDup_remove_1 a b m Hnd)).
    assert (Hnin : ~ In m l') by (exact (NoDup_remove_2 a b m Hnd)).
    assert (Hpos' : Forall (fun x => 1 <= x) l').
    { apply Forall_forall; intros x Hx. rewrite Forall_forall in Hpos. apply Hpos.
      apply (Permutation_in _ (Permutation_sym Hperm)). right; exact Hx. }
    assert (Hlt' : Forall (fun x => x < m) l').
    { apply Forall_forall; intros x Hx. rewrite Forall_forall in Hle.
      assert (x <= m) by (apply Hle; apply (Permutation_in _ (Permutation_sym Hperm)); right; exact Hx).
      assert (x <> m) by (intros ->; contradiction). lia. }
    assert (Hm1 : 1 <= m) by (rewrite Forall_forall in Hpos; apply Hpos; exact Hm).
    assert (Hk : Z.of_nat k <= m - 1).
    { assert (Hincl : incl l' (zrange (Z.to_nat (m - 1)))).
      { intros x Hx. apply In_zrange. rewrite Forall_forall in Hpos', Hlt'.
        specialize (Hpos' x Hx); specialize (Hlt' x Hx). lia. }
      pose proof (NoDup_incl_length Hnd' Hincl) as H.
      rewrite length_zrange in H. lia. }
    destruct (IH l' Hlen' Hnd' Hpos') as [Hlow Heq].
    rewrite Hsum. split; [lia|].
    intros E.
    assert (Hmk : m = Z.of_nat (S k)) by lia.
    assert (Hl'k : Forall (fun x => x <= Z.of_nat k) l') by (apply Heq; lia).
    apply Forall_forall; intros x Hx.
    apply (Permutation_in _ Hperm) in Hx. destruct Hx as [<-|Hx]; [lia|].
    rewrite Forall_forall in Hl'k. specialize (Hl'k x Hx). lia.
Qed.

Lemma sequence_ok_iff vs :
  NoDup vs -> Forall (fun p => 1 <= p) vs ->
  sequence_ok vs = true <-> Permutation vs (zrange (length vs)).
Proof.
  intros Hnd Hpos. unfold sequence_ok. rewrite Z.eqb_eq.
  pose proof (half_exact (length vs)) as Hhalf.
  split.
  - intros E.
    destruct (sum_distinct_lower (length vs) vs eq_refl Hnd Hpos) as [_ Hall].
    assert (Hle : Forall (fun x => x <= Z.of_nat (length vs)) vs) by (apply Hall; lia).
    apply NoDup_Permutation_bis; [exact Hnd|rewrite length_zrange; lia|].
    intros x Hx. apply In_zrange. rewrite Forall_forall in Hpos, Hle.
    specialize (Hpos x Hx); specialize (Hle x Hx); lia.
  - intros Hp. rewrite (sum_Z_perm _ _ Hp).
    pose proof (sum_zrange (length vs)). lia.
Qed.

(** ** One student's triples in a successful load *)

Lemma Forall2_seq_nth {A} (R : nat -> A -> Prop) a n acc s :
  Forall2 R (seq a n) acc -> (s < n)%nat ->
  exists st, nth_error acc s = Some st /\ R (a + s)%nat st.
Proof.
  revert a acc s; induction n as [|n IH]; intros a acc s HF Hs; [lia|].
  simpl in HF. inversion HF as [|x st l' acc' Hx HF' E1 E2]; subst.
  destruct s as [|s].
  - exists st; split; [reflexivity|]. rewrite Nat.add_0_r; exact Hx.
  - destruct (IH (S a) acc' s HF' ltac:(lia)) as (st' & Hn & HR).
    exists st'; split; [exact Hn|]. replace (a + S s)%nat with (S a + s)%nat by lia. exact HR.
Qed.

Lemma merged_In t s0 acc s x c :
  In (s, x, c) (merged t s0 acc) <->
  exists st, nth_error acc (s - s0) = Some st /\ (s0 <= s)%nat /\
             In (x, c) (snd st ++ map (fun y => (y, default_value t (snd st))) (fst st)).
Proof.
  revert s0; induction acc as [|st acc IH]; intros s0; simpl.
  - split; [intros []|]. intros (st & H & _); destruct (s - s0)%nat; discriminate.
  - rewrite in_app_iff, IH. unfold student_triples. rewrite in_map_iff. split.
    + intros [((y, p) & E & Hin)|(st' & Hn & Hle & Hin)].
      * inversion E; subst. exists st. rewrite Nat.sub_diag. auto.
      * exists st'. replace (s - s0)%nat with (S (s - S s0)) by lia. simpl. auto with arith.
    + intros (st' & Hn & Hle & Hin).
      destruct (Nat.eq_dec s s0) as [->|Hne].
      * rewrite Nat.sub_diag in Hn. inversion Hn; subst. left. exists (x, c); auto.
      * right. exists st'. replace (s - s0)%nat with (S (s - S s0)) in Hn by lia.
        simpl in Hn. repeat split; auto. lia.
Qed.

Lemma parse_csv_student t fields students topics prefs s row :
  parse_csv t fields = Ok (students, topics, prefs) ->
  nth_error fields (S s) = Some row ->
  exists u sp,
    read_student fields (length topics) s = Ok (u, sp) /\
    sequence_ok (map snd sp) = true /\
    (forall x c, In (s, x, c) prefs <->
                 In (x, c) (sp ++ map (fun y => (y, default_value t sp)) u)).
Proof.
  intros H Hrow.
  destruct (parse_csv_ok t fields students topics prefs H)
    as (header & rows & acc & -> & Htop & Hlen & Hne & HF & Hseq & ->).
  assert (Hs : (s < length rows)%nat) by (apply nth_error_Some; simpl in Hrow; congruence).
  destruct (Forall2_seq_nth _ 0 _ acc s HF Hs) as ([u sp] & Hn & Hread).
  exists u, sp. split; [exact Hread|]. split.
  - rewrite forallb_forall in Hseq. apply (Hseq (u, sp)). eapply nth_error_In; exact Hn.
  - intros x c. rewrite merged_In. rewrite Nat.sub_0_r. split.
    + intros (st & Hn' & _ & Hin). rewrite Hn in Hn'. inversion Hn'; subst. exact Hin.
    + intros Hin. exists (u, sp). repeat split; auto with arith.
Qed.

(** A specified cell is recorded with its value, an empty one as unspecified. *)
Lemma read_student_cells fields s row m u sp x c :
  nth_error fields (S s) = Some row ->
  read_student fields m s = Ok (u, sp) ->
  (x < m)%nat -> nth_error row (S x) = Some c ->
  (c = ""%string -> In x u /\ forall p, ~ In (x, p) sp) /\
  (c <> ""%string -> (forall p, py_int c = Some p -> In (x, p) sp) /\ ~ In x u).
Proof.
  intros Hrow Hread Hx Hc.
  destruct (read_student_sound fields s row Hrow m u sp Hread)
    as (_ & _ & _ & _ & Hperm & Hsp & Hu).
  assert (Hin : In x (map fst sp ++ u)).
  { apply (Permutation_in _ (Permutation_sym Hperm)). apply in_seq; lia. }
  split.
  - intros ->. split.
    + apply in_app_or in Hin as [Hin|Hin]; [|exact Hin].
      apply in_map_iff in Hin as ((y, p) & E & Hin). simpl in E; subst y.
      destruct (Hsp x p Hin) as (c' & Hc' & Hne & _). congruence.
    + intros p Hin'. destruct (Hsp x p Hin') as (c' & Hc' & Hne & _). congruence.
  - intros Hne. split.
    + intros p Hp. apply in_app_or in Hin as [Hin|Hin].
      * apply in_map_iff in Hin as ((y, q) & E & Hin). simpl in E; subst y.
        destruct (Hsp x q Hin) as (c' & Hc' & _ & Hq).
        rewrite Hc in Hc'. inversion Hc'; subst c'. congruence.
      * specialize (Hu x Hin). congruence.
    + intros Hin'. specialize (Hu x Hin'). congruence.
Qed.

Lemma fold_max_spec (ps : list Z) (p : Z) :
  In (fold_left Z.max ps p) (p :: ps) /\ Forall (fun q => q <= fold_left Z.max ps p) (p :: ps).
Proof.
  revert p; induction ps as [|q ps IH]; intros p; simpl.
  - split; [left; reflexivity|]. constructor; [lia|constructor].
  - destruct (IH (Z.max p q)) as [Hin Hall]. split.
    + destruct Hin as [E|Hin]; [|right; right; exact Hin].
      destruct (Z.max_spec p q) as [[_ E']|[_ E']]; [right; left|left]; congruence.
    + inversion Hall as [|? ? Hm Hrest]; subst.
      constructor; [lia|]. constructor; [lia|exact Hrest].
Qed.

Lemma nth_error_Some_lt {A} (l : list A) n a : nth_error l n = Some a -> (n < length l)%nat.
Proof. intros H. apply nth_error_Some. congruence. Qed.

Lemma Forall2_nth_error_r {A B} (R : A -> B -> Prop) l acc i b :
  Forall2 R l acc -> nth_error acc i = Some b -> exists a, nth_error l i = Some a /\ R a b.
Proof.
  intros HF; revert i; induction HF as [|a b' l acc Hab HF IH]; intros i Hi;
    [destruct i; discriminate|].
  destruct i as [|i]; simpl in *; [inversion Hi; subst; exists a; auto|].
  apply IH; exact Hi.
Qed.

Lemma prefs_student_row t fields students topics prefs s x c :
  parse_csv t fields = Ok (students, topics, prefs) ->
  In (s, x, c) prefs -> exists row, nth_error fields (S s) = Some row.
Proof.
  intros H Hin.
  destruct (parse_csv_ok t fields students topics prefs H)
    as (header & rows & acc & -> & _ & _ & _ & HF & _ & ->).
  apply merged_In in Hin as (st & Hn & _ & _). rewrite Nat.sub_0_r in Hn.
  destruct (Forall2_nth_error_r _ _ _ _ _ HF Hn) as (a & Ha & _).
  apply nth_error_Some_lt in Ha. rewrite length_seq in Ha.
  simpl. destruct (nth_error rows s) as [row|] eqn:E; [exists row; reflexivity|].
  apply nth_error_None in E; lia.
Qed.

(** The triples of one student cover each topic once. *)
Lemma keys_merged t m a acc :
  (forall st, In st acc -> Permutation (map fst (snd st) ++ fst st) (seq 0 m)) ->
  Permutation (map (fun '(s, x, _) => (s, x)) (merged t a acc))
              (list_prod (seq a (length acc)) (seq 0 m)).
Proof.
  revert a; induction acc as [|[u sp] acc IH]; intros a Hacc; simpl; [constructor|].
  rewrite map_app. apply Permutation_app.
  - unfold student_triples. rewrite map_map.
    replace (map (fun x => let '(s, x0, _) := let '(x0, p) := x in (a, x0, p) in (s, x0))
                 (snd (u, sp) ++ map (fun y => (y, default_value t (snd (u, sp)))) (fst (u, sp))))
      with (map (fun y => (a, y)) (map fst sp ++ u)).
    + apply Permutation_map. apply (Hacc (u, sp)). left; reflexivity.
    + simpl. rewrite !map_app, !map_map. f_equal.
      * apply map_ext. intros [y p]; reflexivity.
  - apply IH. intros st Hst; apply Hacc; right; exact Hst.
Qed.

(** Claim C1: in an accepted table, a student who specified something gets
    (largest specified value) + threshold for each unspecified topic; a
    student who specified nothing gets threshold + 1 for every topic. *)
Theorem default_cost_of_unspecified t fields students topics prefs s row :
  parse_csv t fields = Ok (students, topics, prefs) ->
  nth_error fields (S s) = Some row ->
  exists vs, row_values (length topics) row = Some vs /\
    (vs <> [] -> forall x c, nth_error row (S x) = Some ""%string -> In (s, x, c) prefs ->
       In (c - t) vs /\ Forall (fun p => p <= c - t) vs) /\
    (vs = [] -> forall x c, In (s, x, c) prefs -> c = t + 1).
Proof.
  intros H Hrow.
  destruct (parse_csv_student t fields students topics prefs s row H Hrow)
    as (u & sp & Hread & _ & Hmem).
  destruct (read_student_sound fields s row Hrow _ u sp Hread)
    as (_ & Hval & _ & _ & _ & Hsp & _).
  exists (map snd sp). split; [exact Hval|]. split.
  - intros Hne x c Hc Hin. apply Hmem, in_app_or in Hin as [Hin|Hin].
    + destruct (Hsp x c Hin) as (c' & Hc' & Hne' & _). congruence.
    + apply in_map_iff in Hin as (y & E & _). inversion E; subst y c.
      unfold default_value. destruct (map snd sp) as [|p ps]; [contradiction|].
      replace (fold_left Z.max ps p + t - t) with (fold_left Z.max ps p) by ring.
      exact (fold_max_spec ps p).
  - intros Hnil x c Hin. destruct sp; [|discriminate].
    apply Hmem in Hin. simpl in Hin. apply in_map_iff in Hin as (y & E & _).
    inversion E; reflexivity.
Qed.

Lemma parse_csv_keys t fields students topics prefs :
  parse_csv t fields = Ok (students, topics, prefs) ->
  Permutation (map (fun '(s, x, _) => (s, x)) prefs)
              (list_prod (seq 0 (length students)) (seq 0 (length topics))).
Proof.
  intros H.
  destruct (parse_csv_ok t fields students topics prefs H)
    as (header & rows & acc & Hf & Htop & Hlen & Hne & HF & _ & ->).
  replace (length students) with (length acc)
    by (rewrite Hlen; apply Forall2_length in HF; rewrite length_seq in HF; lia).
  apply keys_merged. intros [u sp] Hst.
  apply In_nth_error in Hst as (i & Hi).
  destruct (Forall2_nth_error_r _ _ _ _ _ HF Hi) as (a & Ha & Hread).
  assert (Hai : a = i).
  { rewrite nth_error_seq in Ha. destruct (Nat.ltb i (length rows)); inversion Ha; lia. }
  subst a.
  assert (Hi' : (i < length rows)%nat) by (apply nth_error_Some_lt in Ha; rewrite length_seq in Ha; exact Ha).
  destruct (nth_error rows i) as [row|] eqn:Hrow; [|apply nth_error_None in Hrow; lia].
  assert (Hrow' : nth_error fields (S i) = Some row) by (subst fields; exact Hrow).
  destruct (read_student_sound fields i row Hrow' _ u sp Hread) as (_ & _ & _ & _ & Hperm & _).
  exact Hperm.
Qed.

(** Claim C4: an accepted table yields exactly one triple per (student,
    topic) pair: the (student, topic) keys of the triples are a permutation
    of all pairs. *)
Theorem one_triple_per_pair t fields students topics prefs :
  parse_csv t fields = Ok (students, topics, prefs) ->
  Permutation (map (fun '(s, x, _) => (s, x)) prefs)
              (list_prod (seq 0 (length students)) (seq 0 (length topics))).
Proof. apply parse_csv_keys. Qed.

(** Claim C10: with threshold >= 1, a student's unspecified topics cost
    strictly more than each topic the student ranked. *)
Theorem unspecified_costs_more t fields students topics prefs s row x y cx cy :
  1 <= t ->
  parse_csv t fields = Ok (students, topics, prefs) ->
  nth_error fields (S s) = Some row ->
  nth_error row (S x) = Some ""%string ->
  (exists c, nth_error row (S y) = Some c /\ c <> ""%string) ->
  In (s, x, cx) prefs -> In (s, y, cy) prefs ->
  cy < cx.
Proof.
  intros Ht H Hrow Hx (c & Hy & Hc) Hinx Hiny.
  destruct (parse_csv_student t fields students topics prefs s row H Hrow)
    as (u & sp & Hread & _ & Hmem).
  destruct (read_student_sound fields s row Hrow _ u sp Hread)
    as (_ & _ & _ & _ & _ & Hsp & Hu).
  apply Hmem in Hiny. apply in_app_or in Hiny. destruct Hiny as [Hiny|Hiny].
  2:{ apply in_map_iff in Hiny as (y' & E & Hy'). inversion E; subst y'.
      specialize (Hu y Hy'). congruence. }
  apply Hmem in Hinx. apply in_app_or in Hinx. destruct Hinx as [Hinx|Hinx].
  1:{ destruct (Hsp x cx Hinx) as (c' & Hc' & Hne & _). congruence. }
  apply in_map_iff in Hinx as (x' & E & _). inversion E; subst x' cx.
  assert (Hcy : In cy (map snd sp)) by (apply in_map_iff; exists (y, cy); auto).
  unfold default_value. destruct (map snd sp) as [|p ps]; [contradiction|].
  destruct (fold_max_spec ps p) as [_ Hall].
  rewrite Forall_forall in Hall. specialize (Hall cy Hcy). lia.
Qed.

(** Claim C9 (as stated: for every threshold, every cost is >= 1) fails:
    the threshold is not validated, and with threshold -1 a student who
    specified nothing gets cost 0. *)
Lemma negative_threshold_cost_zero :
  parse_csv (-1) [["X"; "A"]%string; ["s"; ""]%string]
  = Ok (["s"%string], ["A"%string], [(0%nat, 0%nat, 0)]).
Proof. reflexivity. Qed.

(** Claim C9 (amended): for a threshold >= 0, every triple of an accepted
    table has cost >= 1. *)
Theorem costs_positive t fields students topics prefs s x c :
  0 <= t ->
  parse_csv t fields = Ok (students, topics, prefs) ->
  In (s, x, c) prefs -> 1 <= c.
Proof.
  intros Ht H Hin.
  destruct (prefs_student_row t fields students topics prefs s x c H Hin) as (row & Hrow).
  destruct (parse_csv_student t fields students topics prefs s row H Hrow)
    as (u & sp & Hread & _ & Hmem).
  destruct (read_student_sound fields s row Hrow _ u sp Hread)
    as (_ & _ & Hpos & _ & _ & _ & _).
  rewrite Forall_forall in Hpos.
  apply Hmem in Hin. apply in_app_or in Hin. destruct Hin as [Hin|Hin].
  - apply Hpos. apply in_map_iff; exists (x, c); auto.
  - apply in_map_iff in Hin as (x' & E & _). inversion E; subst x' c.
    unfold default_value. destruct (map snd sp) as [|p ps] eqn:Esp; [lia|].
    destruct (fold_max_spec ps p) as [_ Hall]. inversion Hall; subst.
    assert (1 <= p) by (apply Hpos; left; reflexivity). lia.
Qed.

(** ** The sequence check *)






(** ** Per-cell checks and their scope *)





(** ** Validation depends on the specified values only *)

Lemma parse_all_spec cs :
  parse_all cs =
  if forallb (fun c => match py_int c with Some _ => true | None => false end) cs
  then Some (map (fun c => match py_int c with Some p => p | None => 0 end) cs)
  else None.
Proof.
  induction cs as [|c cs IH]; [reflexivity|]. simpl. rewrite IH.
  destruct (py_int c); simpl; [|reflexivity].
  destruct (forallb _ cs); reflexivity.
Qed.

Lemma forallb_perm {A} (f : A -> bool) l l' :
  Permutation l l' -> forallb f l = forallb f l'.
Proof.
  induction 1; simpl; try congruence.
  destruct (f x), (f y); reflexivity.
Qed.

Lemma nodupb_perm l l' : Permutation l l' -> nodupb l = nodupb l'.
Proof.
  intros Hp. destruct (nodupb l) eqn:E1, (nodupb l') eqn:E2; auto.
  - apply nodupb_NoDup in E1. apply (Permutation_NoDup Hp), nodupb_NoDup in E1. congruence.
  - apply nodupb_NoDup in E2. apply (Permutation_NoDup (Permutation_sym Hp)), nodupb_NoDup in E2.
    congruence.
Qed.

Lemma sequence_ok_perm l l' : Permutation l l' -> sequence_ok l = sequence_ok l'.
Proof.
  intros Hp. unfold sequence_ok.
  rewrite (Permutation_length Hp), (sum_Z_perm _ _ Hp). reflexivity.
Qed.

Lemma row_accepted_perm m r r' :
  length r = length r' -> Permutation (specified_cells m r) (specified_cells m r') ->
  row_accepted m r = row_accepted m r'.
Proof.
  intros Hlen Hp. unfold row_accepted, row_values. rewrite Hlen, !parse_all_spec.
  rewrite (forallb_perm _ _ _ Hp).
  destruct (forallb _ (specified_cells m r')); [|reflexivity].
  set (g := fun c => match py_int c with Some p => p | None => 0 end).
  pose proof (Permutation_map g Hp) as Hv.
  rewrite (forallb_perm _ _ _ Hv), (nodupb_perm _ _ Hv), (sequence_ok_perm _ _ Hv).
  reflexivity.
Qed.

(** Claim C8: acceptance is value-based: if every data row is replaced by a
    row of the same length whose specified cells are a permutation of the
    original ones (e.g. the same values moved to other topic columns), the
    loader accepts the new table exactly when it accepts the old one. *)
Theorem acceptance_value_based t header rows rows' :
  Forall2 (fun r r' => length r = length r' /\
             Permutation (specified_cells (length (skipn 1 header)) r)
                         (specified_cells (length (skipn 1 header)) r')) rows rows' ->
  is_ok (parse_csv t (header :: rows)) = is_ok (parse_csv t (header :: rows')).
Proof.
  intros HF. rewrite !parse_csv_accepts. cbv beta iota delta [table_accepted].
  induction HF as [|r r' rows rows' [Hlen Hp] HF IH]; [reflexivity|].
  cbn [forallb]. rewrite (row_accepted_perm _ _ _ Hlen Hp), IH. reflexivity.
Qed.

(** ** float64 arithmetic on integers of at most 53 bits *)

Lemma pow2_53_lt_1024 : 2 ^ 53 < 2 ^ 1024.
Proof. apply Z.pow_lt_mono_r; lia. Qed.

Lemma round_Z_small z : Z.abs z <= 2 ^ 53 -> round_Z z = z.
Proof.
  intros H.
  destruct (Z.eq_dec (Z.abs z) (2 ^ 53)) as [E|E].
  - assert (Hz : z = 2 ^ 53 \/ z = - 2 ^ 53) by lia.
    destruct Hz as [-> | ->]; reflexivity.
  - destruct (Z.eq_dec z 0) as [->|Hz]; [reflexivity|].
    unfold round_Z.
    replace (Z.log2 (Z.abs z) <=? 52) with true; [reflexivity|].
    symmetry. apply Z.leb_le.
    assert (Hlt : Z.log2 (Z.abs z) < 53) by (apply Z.log2_lt_pow2; lia).
    lia.
Qed.

Lemma float_overflow_small z : Z.abs z <= 2 ^ 53 -> float_overflow z = false.
Proof.
  intros H. unfold float_overflow. apply Z.leb_gt. pose proof pow2_53_lt_1024. lia.
Qed.

Lemma int_to_float_small z : Z.abs z <= 2 ^ 53 -> int_to_float z = Ok z.
Proof.
  intros H. unfold int_to_float. rewrite round_Z_small, float_overflow_small by exact H.
  reflexivity.
Qed.

Lemma fadd_small x y : Z.abs (x + y) <= 2 ^ 53 -> fadd (IFin x) (IFin y) = IFin (x + y).
Proof.
  intros H. unfold fadd, ifloat_of_Z.
  rewrite round_Z_small, float_overflow_small by exact H. reflexivity.
Qed.

Lemma sum_Z_cons x l : sum_Z (x :: l) = x + sum_Z l.
Proof. reflexivity. Qed.

Lemma sum_Z_nil : sum_Z [] = 0.
Proof. reflexivity. Qed.

Lemma sum_Z_nonneg l : Forall (fun x => 0 <= x) l -> 0 <= sum_Z l.
Proof.
  induction 1 as [|x l Hx _ IH]; [reflexivity|]. rewrite sum_Z_cons. lia.
Qed.

Lemma Forall_firstn_skipn {A} (P : A -> Prop) n l :
  Forall P l -> Forall P (firstn n l) /\ Forall P (skipn n l).
Proof.
  intros H. rewrite <- (firstn_skipn n l) in H. apply Forall_app in H. exact H.
Qed.

Lemma sum_Z_firstn_skipn n l : sum_Z l = sum_Z (firstn n l) + sum_Z (skipn n l).
Proof. rewrite <- sum_Z_app, firstn_skipn. reflexivity. Qed.

Lemma fsum_from_exact a l :
  0 <= a -> Forall (fun x => 0 <= x) l -> a + sum_Z l <= 2 ^ 53 ->
  fsum_from (IFin a) l = IFin (a + sum_Z l).
Proof.
  unfold fsum_from. revert a; induction l as [|x l IH]; intros a Ha Hl Hs.
  - cbn [fold_left]. rewrite sum_Z_nil. f_equal. lia.
  - inversion Hl as [|? ? Hx Hl']; subst. cbn [fold_left].
    pose proof (sum_Z_nonneg l Hl'). rewrite sum_Z_cons in *.
    rewrite fadd_small by lia. rewrite IH by (lia || assumption). f_equal. lia.
Qed.

Lemma pair_sums (rs blk : list Z) :
  length rs = length blk ->
  Forall (fun x => 0 <= x) rs -> Forall (fun x => 0 <= x) blk ->
  Forall (fun x => 0 <= x) (map (fun '(x, y) => x + y) (combine rs blk)) /\
  sum_Z (map (fun '(x, y) => x + y) (combine rs blk)) = sum_Z rs + sum_Z blk.
Proof.
  revert blk; induction rs as [|r rs IH]; intros [|b blk] Hl Hr Hb; try discriminate.
  - split; [constructor|reflexivity].
  - inversion Hr; inversion Hb; subst. cbn [combine map].
    destruct (IH blk ltac:(simpl in Hl; lia)) as [Hq1 Hq2]; try assumption.
    split; [constructor; [lia|exact Hq1]|]. rewrite !sum_Z_cons, Hq2. lia.
Qed.

Lemma add_block_exact (rs blk : list Z) :
  length rs = length blk ->
  Forall (fun x => 0 <= x) rs -> Forall (fun x => 0 <= x) blk ->
  sum_Z rs + sum_Z blk <= 2 ^ 53 ->
  add_block (map IFin rs) blk = map IFin (map (fun '(x, y) => x + y) (combine rs blk)).
Proof.
  unfold add_block.
  revert blk; induction rs as [|r rs IH]; intros [|b blk] Hl Hr Hb Hs; try discriminate.
  - reflexivity.
  - inversion Hr; inversion Hb; subst. rewrite !sum_Z_cons in Hs. cbn [combine map].
    pose proof (sum_Z_nonneg rs ltac:(assumption)).
    pose proof (sum_Z_nonneg blk ltac:(assumption)).
    rewrite fadd_small by lia. rewrite IH by (simpl in Hl; lia || assumption). reflexivity.
Qed.

Lemma fold_chunks_exact q l rs :
  (8 * q <= length l)%nat -> length rs = 8%nat ->
  Forall (fun x => 0 <= x) rs -> Forall (fun x => 0 <= x) l ->
  sum_Z rs + sum_Z l <= 2 ^ 53 ->
  exists rs', fold_left add_block (chunks8 q l) (map IFin rs) = map IFin rs' /\
    length rs' = 8%nat /\ Forall (fun x => 0 <= x) rs' /\
    sum_Z rs' + sum_Z (skipn (8 * q) l) = sum_Z rs + sum_Z l.
Proof.
  revert l rs; induction q as [|q IH]; intros l rs Hq Hrs Hr Hl Hs.
  - exists rs. split; [reflexivity|]. split; [exact Hrs|]. split; [exact Hr|]. reflexivity.
  - cbn [chunks8 fold_left].
    destruct (Forall_firstn_skipn _ 8 l Hl) as [Hf Hsk].
    assert (Hlf : length (firstn 8 l) = 8%nat) by (rewrite length_firstn; lia).
    pose proof (sum_Z_firstn_skipn 8 l) as Hsplit.
    pose proof (sum_Z_nonneg _ Hsk).
    rewrite add_block_exact by (lia || assumption).
    destruct (pair_sums rs (firstn 8 l) ltac:(lia) Hr Hf) as [Hp Hps].
    destruct (IH (skipn 8 l) (map (fun '(x, y) => x + y) (combine rs (firstn 8 l))))
      as (rs' & E & Hl' & Hr' & Hs').
    + rewrite length_skipn. lia.
    + rewrite length_map, length_combine. lia.
    + exact Hp.
    + exact Hsk.
    + lia.
    + exists rs'. split; [exact E|]. split; [exact Hl'|]. split; [exact Hr'|].
      rewrite skipn_skipn in Hs'. replace (8 * S q)%nat with (8 * q + 8)%nat by lia. lia.
Qed.

Lemma pairwise_sum_exact fuel a :
  (length a <= fuel)%nat -> Forall (fun x => 0 <= x) a -> sum_Z a <= 2 ^ 53 ->
  pairwise_sum fuel a = IFin (sum_Z a).
Proof.
  revert a; induction fuel as [|fuel IH]; intros a Hf Ha Hs.
  - destruct a; [reflexivity|simpl in Hf; lia].
  - cbn [pairwise_sum].
    destruct (Nat.ltb_spec (length a) 8) as [H8|H8].
    { rewrite fsum_from_exact by (lia || assumption); f_equal; lia. }
    destruct (Nat.leb_spec (length a) 128) as [H128|H128].
    + pose proof (Nat.div_mod (length a) 8 ltac:(lia)) as Hdm.
      pose proof (Nat.mod_upper_bound (length a) 8 ltac:(lia)) as Hmb.
      remember (length a / 8)%nat as q eqn:Eq.
      destruct q as [|q]; [lia|].
      cbn [chunks8 tl hd].
      destruct (Forall_firstn_skipn _ 8 a Ha) as [Hf8 Hsk].
      assert (Hlf : length (firstn 8 a) = 8%nat) by (rewrite length_firstn; lia).
      pose proof (sum_Z_firstn_skipn 8 a) as Hsplit.
      pose proof (sum_Z_nonneg _ Hsk).
      destruct (fold_chunks_exact q (skipn 8 a) (firstn 8 a)) as (rs' & E & Hl' & Hr' & Hs');
        [rewrite length_skipn; lia|exact Hlf|exact Hf8|exact Hsk|lia|].
      rewrite E. rewrite skipn_skipn in Hs'.
      replace (8 * S q)%nat with (8 * q + 8)%nat by lia.
      destruct (Forall_firstn_skipn _ (8 * q + 8) a Ha) as [_ Hrest].
      pose proof (sum_Z_firstn_skipn (8 * q + 8) a) as Hsplit'.
      pose proof (sum_Z_nonneg _ Hrest).
      destruct rs' as [|r0 [|r1 [|r2 [|r3 [|r4 [|r5 [|r6 [|r7 [|r8 rs']]]]]]]]];
        cbn [length] in Hl'; try discriminate.
      inversion Hr' as [|? ? Hv0 Hr0]; inversion Hr0 as [|? ? Hv1 Hr1];
        inversion Hr1 as [|? ? Hv2 Hr2]; inversion Hr2 as [|? ? Hv3 Hr3];
        inversion Hr3 as [|? ? Hv4 Hr4]; inversion Hr4 as [|? ? Hv5 Hr5];
        inversion Hr5 as [|? ? Hv6 Hr6]; inversion Hr6 as [|? ? Hv7 Hr7]; subst.
      rewrite !sum_Z_cons, sum_Z_nil in Hs'.
      cbn [map nth].
      rewrite !fadd_small by lia.
      rewrite fsum_from_exact by (lia || assumption).
      f_equal. lia.
    + pose proof (Nat.div_mod (length a) 2 ltac:(lia)).
      pose proof (Nat.mod_upper_bound (length a) 2 ltac:(lia)).
      pose proof (Nat.div_mod (length a / 2) 8 ltac:(lia)).
      pose proof (Nat.mod_upper_bound (length a / 2) 8 ltac:(lia)).
      set (n2 := (length a / 2 - (length a / 2) mod 8)%nat).
      assert (Hn2 : (0 < n2 < length a)%nat) by (unfold n2; lia).
      destruct (Forall_firstn_skipn _ n2 a Ha) as [Hfa Hsa].
      pose proof (sum_Z_firstn_skipn n2 a) as Hsplit.
      pose proof (sum_Z_nonneg _ Hfa). pose proof (sum_Z_nonneg _ Hsa).
      rewrite !IH by (rewrite ?length_firstn, ?length_skipn; lia || assumption).
      rewrite fadd_small by lia. f_equal. lia.
Qed.

Lemma np_sum_exact l :
  Forall (fun x => 0 <= x) l -> sum_Z l <= 2 ^ 53 -> np_sum l = IFin (sum_Z l).
Proof.
  intros Hl Hs. unfold np_sum. pose proof (sum_Z_nonneg l Hl).
  rewrite pairwise_sum_exact by (lia || assumption).
  rewrite fadd_small by lia. reflexivity.
Qed.

Lemma round_div_even_cases N d :
  0 < d ->
  (2 * (N mod d) < d -> round_div_even N d = N / d) /\
  (d < 2 * (N mod d) -> round_div_even N d = N / d + 1) /\
  (round_div_even N d = N / d \/ round_div_even N d = N / d + 1).
Proof.
  intros Hd. unfold round_div_even.
  destruct (Z.compare_spec (2 * (N mod d)) d) as [E|E|E];
    [destruct (Z.even (N / d))| |]; repeat split; intros; lia.
Qed.

Lemma round_div_even_le N d c :
  0 < d -> N <= c * d -> round_div_even N d <= c.
Proof.
  intros Hd H.
  pose proof (Z.div_mod N d ltac:(lia)). pose proof (Z.mod_pos_bound N d Hd).
  destruct (round_div_even_cases N d Hd) as (Hc1 & _ & Hc3).
  set (q := N / d) in *. set (r := N mod d) in *. clearbody q r.
  assert (Hq : q <= c) by nia.
  destruct (Z.eq_dec q c) as [->|Hne].
  - assert (r = 0) by nia. rewrite Hc1 by lia. lia.
  - destruct Hc3; lia.
Qed.

Lemma round_div_even_ge N d c :
  0 < d -> (2 * c + 1) * d < 2 * N -> c + 1 <= round_div_even N d.
Proof.
  intros Hd H.
  pose proof (Z.div_mod N d ltac:(lia)). pose proof (Z.mod_pos_bound N d Hd).
  destruct (round_div_even_cases N d Hd) as (_ & Hc2 & Hc3).
  set (q := N / d) in *. set (r := N mod d) in *. clearbody q r.
  assert (Hq : c <= q) by nia.
  destruct (Z.eq_dec q c) as [->|Hne].
  - rewrite Hc2 by nia. lia.
  - destruct Hc3; lia.
Qed.

(** Rounding [a * K / b] to an integer keeps the comparison of [a / b] with
    an integer [t] when [b < 2 K]. *)
Lemma round_div_even_gt a b K t :
  0 <= a -> 0 < b -> 0 < K -> b < 2 * K -> 0 <= t ->
  (t * K < round_div_even (a * K) b <-> t * b < a).
Proof.
  intros Ha Hb HK HbK Ht. split.
  - intros H. destruct (Z.lt_ge_cases (t * b) a) as [Hlt|Hge]; [exact Hlt|].
    assert (round_div_even (a * K) b <= t * K) by (apply round_div_even_le; nia).
    lia.
  - intros H. assert (t * K + 1 <= round_div_even (a * K) b)
      by (apply round_div_even_ge; nia).
    lia.
Qed.

Lemma floor_log2_frac_bounds a b :
  0 < a < 2 ^ 53 -> 0 < b <= 2 ^ 53 ->
  floor_log2_frac a b <= 52 /\ -54 <= floor_log2_frac a b /\
  b < 2 ^ (53 - floor_log2_frac a b).
Proof.
  intros Ha Hb.
  assert (Hfl : floor_log2_frac a b = Z.log2 a - Z.log2 b \/
                floor_log2_frac a b = Z.log2 a - Z.log2 b - 1).
  { unfold floor_log2_frac. cbv zeta.
    repeat match goal with |- context [if ?c then _ else _] => destruct c end; lia. }
  assert (Hla : Z.log2 a < 53) by (apply Z.log2_lt_pow2; lia).
  assert (Hlb : Z.log2 b <= 53).
  { rewrite <- (Z.log2_pow2 53) by lia. apply Z.log2_le_mono. exact (proj2 Hb). }
  pose proof (Z.log2_nonneg a). pose proof (Z.log2_nonneg b).
  destruct (Z.log2_spec b ltac:(lia)) as [_ Hbs].
  split; [lia|]. split; [lia|].
  eapply Z.lt_le_trans; [exact Hbs|]. apply Z.pow_le_mono_r; lia.
Qed.

Lemma round_Q_frac a p :
  0 < a < 2 ^ 53 -> Zpos p <= 2 ^ 53 ->
  exists K, 0 < K /\ Zpos p < 2 * K /\
    round_Q (Qmake a p) = Fnum (Qred (Qmake (round_div_even (a * K) (Zpos p)) (Z.to_pos K))).
Proof.
  intros Ha Hp.
  destruct (floor_log2_frac_bounds a (Zpos p) Ha ltac:(lia)) as (Hf1 & Hf2 & Hf3).
  unfold round_Q. cbv beta zeta. cbn [Qnum Qden].
  replace (Z.abs a =? 0) with false by (symmetry; apply Z.eqb_neq; lia).
  rewrite Z.abs_eq by lia.
  set (fl := floor_log2_frac a (Zpos p)) in *.
  rewrite Z.max_l by lia.
  replace (0 <? a) with true by (symmetry; apply Z.ltb_lt; lia).
  pose proof Z.pow_pos_nonneg.
  destruct (Z.leb_spec 0 (fl - 52)) as [He|He].
  - assert (Efl : fl = 52) by lia. rewrite Efl in *.
    replace (53 - 52) with 1 in Hf3 by lia. rewrite Z.pow_1_r in Hf3.
    assert (Ep : p = 1%positive) by lia. subst p.
    exists 1. split; [lia|]. split; [lia|].
    replace (52 - 52) with 0 by lia. rewrite Z.pow_0_r, !Z.mul_1_r.
    assert (Hm : round_div_even a 1 <= a) by (apply round_div_even_le; lia).
    unfold Qle_bool. cbn [inject_Z Qnum Qden].
    replace (2 ^ 1024 * 1 <=? round_div_even a 1 * 1) with false.
    + reflexivity.
    + symmetry. apply Z.leb_gt. pose proof pow2_53_lt_1024. lia.
  - exists (2 ^ (- (fl - 52))).
    assert (HK : 0 < 2 ^ (- (fl - 52))) by (apply Z.pow_pos_nonneg; lia).
    split; [exact HK|]. split.
    + replace (53 - fl) with (Z.succ (- (fl - 52))) in Hf3 by lia.
      rewrite Z.pow_succ_r in Hf3 by lia. exact Hf3.
    + set (K := 2 ^ (- (fl - 52))) in *.
      assert (Hm : round_div_even (a * K) (Zpos p) <= a * K)
        by (apply round_div_even_le; nia).
      unfold Qle_bool. cbn [inject_Z Qnum Qden].
      rewrite Z2Pos.id by exact HK.
      replace (2 ^ 1024 * K <=? round_div_even (a * K) (Zpos p) * 1) with false.
      * reflexivity.
      * symmetry. apply Z.leb_gt. pose proof pow2_53_lt_1024. nia.
Qed.

Lemma float_gt_frac m K t :
  0 < K ->
  float_gt (Fnum (Qred (Qmake m (Z.to_pos K)))) (Fnum (inject_Z t)) = (t * K <? m).
Proof.
  intros HK. unfold float_gt.
  destruct (Z.ltb_spec (t * K) m) as [H|H].
  - destruct (Qle_bool _ _) eqn:E; [|reflexivity].
    apply Qle_bool_iff in E. rewrite Qred_correct in E.
    unfold Qle in E. cbn [Qnum Qden inject_Z] in E. rewrite Z2Pos.id in E by exact HK. lia.
  - replace (Qle_bool _ _) with true; [reflexivity|].
    symmetry. apply Qle_bool_iff. rewrite Qred_correct.
    unfold Qle. cbn [Qnum Qden inject_Z]. rewrite Z2Pos.id by exact HK. lia.
Qed.

Lemma average_frac a n :
  (n <> 0)%nat -> Z.of_nat n <= 2 ^ 53 ->
  average a n = round_Q (inject_Z a / inject_Z (Z.of_nat n)).
Proof.
  intros Hn Hb. unfold average. rewrite round_Z_small by lia.
  unfold float_div. replace (Z.of_nat n =? 0) with false by (symmetry; apply Z.eqb_neq; lia).
  reflexivity.
Qed.

Lemma float_of_int_small t : Z.abs t <= 2 ^ 53 -> float_of_int t = Fnum (inject_Z t).
Proof.
  intros H. unfold float_of_int. rewrite round_Z_small, float_overflow_small by exact H.
  reflexivity.
Qed.

(** For at most 2^53 students, a total below 2^53 and a threshold in
    [0, 2^53], the float64 comparison [total / n > t] is the exact one. *)
Lemma above_threshold_average t a n :
  0 <= t <= 2 ^ 53 -> 0 <= a < 2 ^ 53 -> (1 <= n)%nat -> Z.of_nat n <= 2 ^ 53 ->
  above_threshold t (average a n) = (t * Z.of_nat n <? a).
Proof.
  intros Ht Ha Hn Hb. unfold above_threshold.
  rewrite average_frac by lia. rewrite float_of_int_small by lia.
  destruct n as [|n']; [lia|].
  change (Z.of_nat (S n')) with (Zpos (Pos.of_succ_nat n')) in *.
  set (p := Pos.of_succ_nat n') in *. clearbody p.
  change (inject_Z a / inject_Z (Zpos p))%Q with (Qmake (a * 1) p).
  rewrite Z.mul_1_r.
  destruct (Z.eq_dec a 0) as [->|Ha0].
  - replace (round_Q (Qmake 0 p)) with (Fnum 0) by reflexivity.
    unfold float_gt. replace (Qle_bool 0 (inject_Z t)) with true.
    + symmetry. apply Z.ltb_ge. nia.
    + symmetry. apply Qle_bool_iff. unfold Qle. cbn [Qnum Qden inject_Z]. lia.
  - destruct (round_Q_frac a p ltac:(lia) Hb) as (K & HK & HpK & E).
    rewrite E, float_gt_frac by exact HK.
    pose proof (round_div_even_gt a (Zpos p) K t ltac:(lia) ltac:(lia) HK HpK ltac:(lia))
      as Hiff.
    destruct (Z.ltb_spec (t * K) (round_div_even (a * K) (Zpos p))) as [H|H];
      destruct (Z.ltb_spec (t * Zpos p) a) as [H'|H']; try reflexivity; exfalso.
    + apply Hiff in H. lia.
    + apply Hiff in H'. lia.
Qed.

(** ** The solver wrapper *)

Lemma set_nth_shape {A} (l l' : list A) i x :
  set_nth l i x = Ok l' ->
  length l' = length l /\ (forall y, In y l' -> In y l \/ y = x).
Proof.
  revert i l'; induction l as [|a l IH]; intros [|i] l' H; simpl in H; try discriminate.
  - inversion H; subst. split; [reflexivity|]. intros y [<-|Hy]; auto. left; right; exact Hy.
  - destruct (set_nth l i x) as [r|e] eqn:E; simpl in H; [|discriminate].
    inversion H; subst. destruct (IH i r E) as [Hl Hin]. split; [simpl; congruence|].
    intros y [<-|Hy]; [left; left; reflexivity|].
    destruct (Hin y Hy) as [Hy'|Hy']; auto. left; right; exact Hy'.
Qed.

Lemma build_cost_matrix_shape n m prefs M :
  build_cost_matrix n m prefs = Ok M ->
  length M = n /\ Forall (fun row => length row = m) M.
Proof.
  unfold build_cost_matrix.
  assert (H0 : length (zeros n m) = n /\ Forall (fun row => length row = m) (zeros n m)).
  { unfold zeros. rewrite repeat_length. split; [reflexivity|].
    apply Forall_forall. intros r Hr. apply repeat_spec in Hr. subst r. apply repeat_length. }
  revert H0. generalize (zeros n m). intros M0 H0 H.
  revert M0 H0 H; induction prefs as [|[[s x] c] prefs IH]; intros M0 [Hl Hf] H.
  - inversion H; subst; auto.
  - cbn [fold_result] in H. unfold set_cell at 1 in H.
    destruct (index M0 s) as [row|e] eqn:Hrow; cbn [bind] in H; [|discriminate].
    destruct (index row x) as [v0|e]; cbn [bind] in H; [|discriminate].
    destruct (int_to_float c) as [v|e]; cbn [bind] in H; [|discriminate].
    destruct (set_nth row x v) as [row'|e] eqn:Hrow'; cbn [bind] in H; [|discriminate].
    destruct (set_nth M0 s row') as [M1|e] eqn:HM1; cbn [bind] in H; [|discriminate].
    apply (IH M1); [|exact H].
    destruct (set_nth_shape _ _ _ _ Hrow') as [Hlr _].
    destruct (set_nth_shape _ _ _ _ HM1) as [HlM Hin].
    split; [congruence|]. apply Forall_forall. intros r Hr.
    destruct (Hin r Hr) as [Hr' | ->].
    + rewrite Forall_forall in Hf. apply Hf; exact Hr'.
    + unfold index in Hrow. destruct (nth_error M0 s) eqn:E; inversion Hrow; subst.
      rewrite Forall_forall in Hf. rewrite Hlr. apply Hf. eapply nth_error_In; exact E.
Qed.

Lemma get_cell_ok M n m i j :
  length M = n -> Forall (fun row => length row = m) M -> (i < n)%nat -> (j < m)%nat ->
  get_cell M i j = Ok (nth j (nth i M []) 0).
Proof.
  intros Hl Hf Hi Hj. unfold get_cell, index.
  destruct (nth_error M i) as [row|] eqn:E; [|apply nth_error_None in E; lia].
  cbn [bind]. rewrite (nth_error_nth M i [] E).
  rewrite Forall_forall in Hf. assert (Hr : length row = m) by (apply Hf; eapply nth_error_In; exact E).
  destruct (nth_error row j) as [v|] eqn:E'; [|apply nth_error_None in E'; lia].
  rewrite (nth_error_nth row j 0 E'). reflexivity.
Qed.

Lemma fancy_index_ok M n m rows cols :
  length M = n -> Forall (fun row => length row = m) M ->
  length rows = length cols ->
  Forall (fun i => i < n)%nat rows -> Forall (fun j => j < m)%nat cols ->
  fancy_index M rows cols = Ok (map (fun '(i, j) => nth j (nth i M []) 0) (combine rows cols)).
Proof.
  intros Hl Hf Hlen Hr Hc. subst n. unfold fancy_index.
  rewrite (proj2 (Nat.eqb_eq _ _) Hlen). cbn [bind].
  revert cols Hlen Hc; induction rows as [|i rows IH]; intros [|j cols] Hlen Hc;
    try discriminate; [reflexivity|].
  inversion Hr; inversion Hc; subst. simpl combine. simpl map_result.
  rewrite (get_cell_ok M (length M) m i j eq_refl Hf) by assumption. cbn [bind].
  rewrite IH by auto. reflexivity.
Qed.

Lemma report_loop_ok students topics rows cols :
  length rows = length cols ->
  Forall (fun i => i < length students)%nat rows ->
  Forall (fun j => j < length topics)%nat cols ->
  map_result (report_line students topics rows cols) (seq 0 (length rows)) =
  Ok (map (fun '(i, j) => LAssign (nth i students ""%string) (nth j topics ""%string))
          (combine rows cols)).
Proof.
  revert cols; induction rows as [|i rows IH]; intros [|j cols] Hlen Hr Hc;
    try discriminate; [reflexivity|].
  inversion Hr; inversion Hc; subst.
  simpl length. cbn [seq]. rewrite <- seq_shift.
  simpl map_result.
  assert (Hhead : report_line students topics (i :: rows) (j :: cols) 0
                  = Ok (LAssign (nth i students ""%string) (nth j topics ""%string))).
  { unfold report_line, index. cbn [nth_error bind].
    destruct (nth_error students i) as [a|] eqn:Ea; [|apply nth_error_None in Ea; lia].
    destruct (nth_error topics j) as [b|] eqn:Eb; [|apply nth_error_None in Eb; lia].
    cbn [bind]. rewrite (nth_error_nth _ _ _ Ea), (nth_error_nth _ _ _ Eb). reflexivity. }
  rewrite Hhead. cbn [bind].
  assert (Htail : map_result (report_line students topics (i :: rows) (j :: cols)) (map S (seq 0 (length rows)))
                  = map_result (report_line students topics rows cols) (seq 0 (length rows))).
  { generalize (seq 0 (length rows)). intros l. induction l as [|k l IHl]; [reflexivity|].
    simpl. rewrite IHl. reflexivity. }
  rewrite Htail, IH by (simpl in Hlen; lia || auto). reflexivity.
Qed.

(** The report for a matching that stays inside the matrix, when the
    float64 sum of the matched cells is the finite [total]. *)
Lemma solve_report t lsa students topics prefs M rows cols total :
  build_cost_matrix (length students) (length topics) prefs = Ok M ->
  lsa M = (rows, cols) -> length rows = length cols ->
  Forall (fun i => i < length students)%nat rows ->
  Forall (fun j => j < length topics)%nat cols ->
  np_sum (map (fun '(i, j) => nth j (nth i M []) 0) (combine rows cols)) = IFin total ->
  let avg := average total (length students) in
  solve_assignment_problem t lsa students topics prefs =
  Ok ([LTotal total; LAverage avg] ++
      (if above_threshold t avg then [LWarning avg t] else []) ++
      [LSolution] ++
      map (fun '(i, j) => LAssign (nth i students ""%string) (nth j topics ""%string))
          (combine rows cols)).
Proof.
  intros HM Hlsa Hlen Hr Hc Hsum avg.
  destruct (build_cost_matrix_shape _ _ _ _ HM) as [Hl Hf].
  unfold solve_assignment_problem. rewrite HM. cbn [bind]. rewrite Hlsa.
  rewrite (fancy_index_ok M _ _ rows cols Hl Hf Hlen Hr Hc). cbn [bind].
  rewrite Hsum. cbn [format_int bind].
  rewrite (report_loop_ok students topics rows cols Hlen Hr Hc). cbn [bind].
  reflexivity.
Qed.

Lemma set_nth_ok {A} (l : list A) i x :
  (i < length l)%nat -> exists l', set_nth l i x = Ok l'.
Proof.
  revert i; induction l as [|a l IH]; intros [|i] Hi; simpl in Hi; try lia.
  - exists (x :: l); reflexivity.
  - destruct (IH i ltac:(lia)) as [l' E]. exists (a :: l'). simpl. rewrite E. reflexivity.
Qed.

Lemma build_cost_matrix_ok n m prefs :
  Forall (fun '(s, x, c) => (s < n)%nat /\ (x < m)%nat /\ Z.abs c <= 2 ^ 53) prefs ->
  exists M, build_cost_matrix n m prefs = Ok M.
Proof.
  unfold build_cost_matrix.
  assert (H0 : length (zeros n m) = n /\ Forall (fun row => length row = m) (zeros n m)).
  { unfold zeros. rewrite repeat_length. split; [reflexivity|].
    apply Forall_forall. intros r Hr. apply repeat_spec in Hr. subst r. apply repeat_length. }
  revert H0. generalize (zeros n m). intros M0 H0 Hp.
  revert M0 H0 Hp; induction prefs as [|[[s x] c] prefs IH]; intros M0 [Hl Hf] Hp.
  - exists M0; reflexivity.
  - inversion Hp as [|? ? Hsx Hp']; subst. cbv beta iota in Hsx. destruct Hsx as (Hs & Hx & Hc).
    cbn [fold_result]. unfold set_cell at 1. unfold index.
    destruct (nth_error M0 s) as [row|] eqn:Hrow; [|apply nth_error_None in Hrow; lia].
    cbn [bind].
    assert (Hlr : length row = m)
      by (rewrite Forall_forall in Hf; apply Hf; eapply nth_error_In; exact Hrow).
    destruct (nth_error row x) as [v0|] eqn:Hx'; [|apply nth_error_None in Hx'; lia].
    cbn [bind]. rewrite int_to_float_small by exact Hc. cbn [bind].
    destruct (set_nth_ok row x c ltac:(lia)) as [row' Hrow']. rewrite Hrow'. cbn [bind].
    destruct (set_nth_ok M0 s row' ltac:(lia)) as [M1 HM1]. rewrite HM1. cbn [bind].
    apply (IH M1); [|exact Hp'].
    destruct (set_nth_shape _ _ _ _ Hrow') as [Hlr' _].
    destruct (set_nth_shape _ _ _ _ HM1) as [HlM Hin].
    split; [congruence|]. apply Forall_forall. intros r Hr.
    destruct (Hin r Hr) as [Hr' | ->].
    + rewrite Forall_forall in Hf. apply Hf; exact Hr'.
    + congruence.
Qed.

Lemma parse_all_length cs vs : parse_all cs = Some vs -> length vs = length cs.
Proof.
  revert vs; induction cs as [|c cs IH]; intros vs H; simpl in H.
  - injection H as <-. reflexivity.
  - destruct (py_int c), (parse_all cs) eqn:E; try discriminate.
    injection H as <-. simpl. rewrite (IH l eq_refl). reflexivity.
Qed.

(** What an accepted table gives one student: values [1..k] on the ranked
    topics, and [k + t] (or [t + 1] when [k = 0]) on the others. *)
Lemma student_costs t fields students topics prefs s row :
  parse_csv t fields = Ok (students, topics, prefs) ->
  nth_error fields (S s) = Some row ->
  exists u sp,
    read_student fields (length topics) s = Ok (u, sp) /\
    Permutation (map snd sp) (zrange (length sp)) /\
    length (specified_cells (length topics) row) = length sp /\
    (length sp + length u = length topics)%nat /\
    default_value t sp = (if Nat.eqb (length sp) 0 then t + 1 else Z.of_nat (length sp) + t) /\
    (forall x c, In (s, x, c) prefs <-> In (x, c) sp \/ (In x u /\ c = default_value t sp)).
Proof.
  intros H Hrow.
  destruct (parse_csv_student t fields students topics prefs s row H Hrow)
    as (u & sp & Hread & Hseq & Hiff).
  destruct (read_student_sound fields s row Hrow _ u sp Hread)
    as (_ & Hval & Hpos & Hnd & Hperm & _ & _).
  assert (Hp : Permutation (map snd sp) (zrange (length sp))).
  { rewrite <- (length_map snd sp). apply (sequence_ok_iff _ Hnd Hpos). exact Hseq. }
  exists u, sp. split; [exact Hread|]. split; [exact Hp|]. split.
  { unfold row_values in Hval. apply parse_all_length in Hval.
    rewrite length_map in Hval. symmetry; exact Hval. }
  split.
  { apply Permutation_length in Hperm. rewrite length_app, length_map, length_seq in Hperm.
    exact Hperm. }
  split.
  - unfold default_value. destruct sp as [|[x0 p0] sp']; [reflexivity|].
    cbn [map length Nat.eqb]. cbn [map] in Hp.
    destruct (fold_max_spec (map snd sp') p0) as [Hin Hall].
    set (k := length ((x0, p0) :: sp')) in *.
    assert (Hk : In (Z.of_nat k) (zrange k)) by (apply In_zrange; subst k; simpl; lia).
    apply (Permutation_in _ (Permutation_sym Hp)) in Hk.
    apply (Permutation_in _ Hp) in Hin. apply In_zrange in Hin.
    rewrite Forall_forall in Hall. specialize (Hall _ Hk).
    f_equal. subst k. simpl in *. lia.
  - intros x c. rewrite Hiff, in_app_iff, in_map_iff. split.
    + intros [Hin|(y & E & Hy)]; [left; exact Hin|]. injection E as -> ->. right; auto.
    + intros [Hin|[Hin ->]]; [left; exact Hin|]. right. exists x. auto.
Qed.

(** Every triple of an accepted table, for a threshold >= 0: its indices
    are in range and its cost lies in [1, #topics + t]. *)
Lemma cost_bounds t fields students topics prefs s x c :
  0 <= t ->
  parse_csv t fields = Ok (students, topics, prefs) ->
  In (s, x, c) prefs -> 1 <= c <= Z.of_nat (length topics) + t.
Proof.
  intros Ht H Hin.
  destruct (prefs_student_row t fields students topics prefs s x c H Hin) as (row & Hrow).
  destruct (student_costs t fields students topics prefs s row H Hrow)
    as (u & sp & _ & Hp & _ & Hlen & Hdef & Hiff).
  apply Hiff in Hin as [Hin|[Hu ->]].
  - assert (Hc : In c (zrange (length sp))).
    { apply (Permutation_in _ Hp). apply in_map_iff. exists (x, c); auto. }
    apply In_zrange in Hc. lia.
  - rewrite Hdef. destruct u as [|y u]; [destruct Hu|].
    simpl in Hlen. destruct (Nat.eqb_spec (length sp) 0); lia.
Qed.

Lemma prefs_small t fields students topics prefs :
  0 <= t -> parse_csv t fields = Ok (students, topics, prefs) ->
  Forall (fun '(s, x, c) => (s < length students)%nat /\ (x < length topics)%nat /\
                            1 <= c <= Z.of_nat (length topics) + t) prefs.
Proof.
  intros Ht H. apply Forall_forall. intros [[s x] c] Hin.
  pose proof (cost_bounds t fields students topics prefs s x c Ht H Hin).
  assert (Hk : In (s, x) (list_prod (seq 0 (length students)) (seq 0 (length topics)))).
  { eapply Permutation_in; [apply (parse_csv_keys t fields _ _ _ H)|].
    apply in_map_iff. exists (s, x, c). auto. }
  apply in_prod_iff in Hk as [Hs Hx]. apply in_seq in Hs, Hx. lia.
Qed.

Lemma set_nth_nth {A} (l l' : list A) i v :
  set_nth l i v = Ok l' -> forall j d, nth j l' d = if Nat.eqb j i then v else nth j l d.
Proof.
  revert i l'; induction l as [|a l IH]; intros [|i] l' H j d; simpl in H; try discriminate.
  - injection H as <-. destruct j; reflexivity.
  - destruct (set_nth l i v) as [r|e] eqn:E; cbn [bind] in H; [|discriminate].
    injection H as <-. destruct j as [|j]; [reflexivity|]. simpl. apply IH. exact E.
Qed.

(** Storing [c] stores the float64 nearest to it. *)
Lemma set_cell_nth M M' s x c :
  set_cell M s x c = Ok M' ->
  forall r y, nth y (nth r M' []) 0 =
              if Nat.eqb r s && Nat.eqb y x then round_Z c else nth y (nth r M []) 0.
Proof.
  unfold set_cell, index. intros H r y.
  destruct (nth_error M s) as [row|] eqn:Hrow; cbn [bind] in H; [|discriminate].
  destruct (nth_error row x) as [v0|]; cbn [bind] in H; [|discriminate].
  unfold int_to_float in H.
  destruct (float_overflow (round_Z c)); cbn [bind] in H; [discriminate|].
  destruct (set_nth row x (round_Z c)) as [row'|e] eqn:Hrow'; cbn [bind] in H; [|discriminate].
  rewrite (set_nth_nth M M' s row' H r []).
  destruct (Nat.eqb r s) eqn:Ers; cbn [andb]; [|reflexivity].
  apply Nat.eqb_eq in Ers; subst r.
  rewrite (set_nth_nth row row' x (round_Z c) Hrow' y 0).
  rewrite (nth_error_nth M s [] Hrow). reflexivity.
Qed.

Lemma fold_set_cells prefs M0 M :
  fold_result (fun M '(student, topic, cost) => set_cell M student topic cost) prefs M0 = Ok M ->
  NoDup (map (fun '(s, x, _) => (s, x)) prefs) ->
  (forall r y, ~ In (r, y) (map (fun '(s, x, _) => (s, x)) prefs) ->
     nth y (nth r M []) 0 = nth y (nth r M0 []) 0) /\
  (forall r y c, In (r, y, c) prefs -> nth y (nth r M []) 0 = round_Z c).
Proof.
  revert M0; induction prefs as [|[[s x] c] prefs IH]; intros M0 H Hnd.
  - injection H as <-. split; [reflexivity|]. intros ? ? ? [].
  - cbn [fold_result] in H.
    destruct (set_cell M0 s x c) as [M1|e] eqn:E; cbn [bind] in H; [|discriminate].
    inversion Hnd as [|? ? Hnin Hnd']; subst.
    destruct (IH M1 H Hnd') as [Hkeep Hset].
    assert (Hkeep0 : forall r y, ~ In (r, y) (map (fun '(s, x, _) => (s, x)) ((s, x, c) :: prefs)) ->
                       nth y (nth r M []) 0 = nth y (nth r M0 []) 0).
    { intros r y Hn. rewrite Hkeep by (intros Hi; apply Hn; right; exact Hi).
      rewrite (set_cell_nth M0 M1 s x c E r y).
      destruct (Nat.eqb r s) eqn:Er, (Nat.eqb y x) eqn:Ey; cbn [andb]; try reflexivity.
      apply Nat.eqb_eq in Er, Ey; subst. exfalso; apply Hn; left; reflexivity. }
    split; [exact Hkeep0|].
    intros r y c' [Eh|Hin].
    + injection Eh as <- <- <-. rewrite (Hkeep s x Hnin).
      rewrite (set_cell_nth M0 M1 s x c E s x), !Nat.eqb_refl. reflexivity.
    + apply Hset; exact Hin.
Qed.

Lemma NoDup_list_prod {A B} (l : list A) (l' : list B) :
  NoDup l -> NoDup l' -> NoDup (list_prod l l').
Proof.
  intros Hl Hl'. induction Hl as [|a l Ha Hl IH]; [constructor|].
  simpl. apply NoDup_app; [|exact IH|].
  - clear - Hl'. induction Hl' as [|b l' Hb _ IH']; simpl; constructor; [|exact IH'].
    intros Hin. apply in_map_iff in Hin as (b' & E & Hb'). injection E as ->. contradiction.
  - intros [a' b] Hin Hin'. apply in_map_iff in Hin as (b' & E & _). injection E as -> ->.
    apply in_prod_iff in Hin' as [Ha' _]. contradiction.
Qed.

(** The cost matrix of an accepted table, when its costs fit in 53 bits. *)
Lemma parse_matrix t fields students topics prefs :
  0 <= t -> parse_csv t fields = Ok (students, topics, prefs) ->
  Forall (fun '(_, _, c) => Z.abs c <= 2 ^ 53) prefs ->
  exists M, build_cost_matrix (length students) (length topics) prefs = Ok M /\
    length M = length students /\ Forall (fun row => length row = length topics) M /\
    (forall s x c, In (s, x, c) prefs -> nth x (nth s M []) 0 = c).
Proof.
  intros Ht H Hsmall.
  pose proof (parse_csv_keys t fields students topics prefs H) as Hperm.
  pose proof (prefs_small t fields students topics prefs Ht H) as Hp.
  destruct (build_cost_matrix_ok (length students) (length topics) prefs) as [M HM].
  { rewrite Forall_forall in Hp, Hsmall |- *. intros [[s x] c] Hin.
    specialize (Hp _ Hin). specialize (Hsmall _ Hin). cbv beta iota in Hp, Hsmall |- *.
    lia. }
  exists M. split; [exact HM|].
  destruct (build_cost_matrix_shape _ _ _ _ HM) as [Hl Hf].
  split; [exact Hl|]. split; [exact Hf|].
  destruct (fold_set_cells prefs _ M HM) as [_ Hc].
  { apply (Permutation_NoDup (Permutation_sym Hperm)).
    apply NoDup_list_prod; apply seq_NoDup. }
  intros s x c Hin. rewrite (Hc s x c Hin). apply round_Z_small.
  rewrite Forall_forall in Hsmall. exact (Hsmall _ Hin).
Qed.

Lemma NoDup_in_range_length (cols : list nat) m :
  NoDup cols -> Forall (fun j => j < m)%nat cols -> (length cols <= m)%nat.
Proof.
  intros Hnd Hc. rewrite <- (length_seq m 0).
  apply NoDup_incl_length; [exact Hnd|].
  intros j Hj. rewrite Forall_forall in Hc. apply in_seq. specialize (Hc j Hj). lia.
Qed.

Lemma Qlt_div_iff (a b : Z) (n : nat) :
  n <> O -> (inject_Z a < inject_Z b / inject_Z (Z.of_nat n))%Q <-> a * Z.of_nat n < b.
Proof.
  intros Hn. assert (Hpos : (0 < inject_Z (Z.of_nat n))%Q)
    by (change 0%Q with (inject_Z 0); rewrite <- Zlt_Qlt; lia).
  split.
  - intros H. destruct (Z_lt_le_dec (a * Z.of_nat n) b) as [Hlt|Hle]; [exact Hlt|].
    exfalso. rewrite Zle_Qle, inject_Z_mult in Hle.
    apply (Qle_shift_div_r _ _ _ Hpos) in Hle. exact (Qlt_not_le _ _ H Hle).
  - intros H. apply Qlt_shift_div_l; [exact Hpos|].
    rewrite Zlt_Qlt, inject_Z_mult in H. exact H.
Qed.

Lemma sum_Z_bound l B :
  Forall (fun x => 0 <= x <= B) l -> 0 <= sum_Z l <= Z.of_nat (length l) * B.
Proof.
  induction 1 as [|x l Hx _ IH]; [cbn; lia|].
  rewrite sum_Z_cons. cbn [length]. rewrite Nat2Z.inj_succ, Z.mul_succ_l. lia.
Qed.

Lemma Forall2_Forall_r {A B} (P : A -> B -> Prop) (Q : B -> Prop) la lb :
  Forall2 P la lb -> (forall a b, P a b -> Q b) -> Forall Q lb.
Proof.
  intros H HPQ. induction H as [|a b la lb Hab _ IH]; constructor; [|exact IH].
  exact (HPQ a b Hab).
Qed.

(** The matched cells of a matching inside the matrix are the costs of the
    matched pairs. *)
Lemma matched_costs t fields students topics prefs M rows cols :
  parse_csv t fields = Ok (students, topics, prefs) ->
  (forall s x c, In (s, x, c) prefs -> nth x (nth s M []) 0 = c) ->
  Forall (fun i => i < length students)%nat rows ->
  Forall (fun j => j < length topics)%nat cols ->
  Forall2 (fun '(i, j) c => In (i, j, c) prefs) (combine rows cols)
    (map (fun '(i, j) => nth j (nth i M []) 0) (combine rows cols)).
Proof.
  intros Hp Hcells Hr Hc.
  pose proof (parse_csv_keys t fields students topics prefs Hp) as Hperm.
  clear Hp.
  revert cols Hc; induction rows as [|i rows IH]; intros [|j cols] Hc; simpl; try constructor.
  - inversion Hr as [|? ? Hi Hr']; inversion Hc as [|? ? Hj Hc']; subst.
    assert (Hk : In (i, j) (map (fun '(s, x, _) => (s, x)) prefs)).
    { eapply Permutation_in; [apply Permutation_sym; exact Hperm|].
      apply in_prod; apply in_seq; lia. }
    apply in_map_iff in Hk as ([[i' j'] c] & E & Hin). injection E as -> ->.
    rewrite (Hcells i j c Hin). exact Hin.
  - inversion Hr; inversion Hc; subst. apply IH; assumption.
Qed.

(** An accepted table whose costs and totals fit in float64's 53 bits
    always gets a cost matrix holding its costs; for any matching inside it
    with distinct students, the report is this. *)
Lemma main_report t lsa fields students topics prefs :
  0 <= t ->
  Z.of_nat (length students) * (Z.of_nat (length topics) + t) < 2 ^ 53 ->
  parse_csv t fields = Ok (students, topics, prefs) ->
  exists M, build_cost_matrix (length students) (length topics) prefs = Ok M /\
  (forall s x c, In (s, x, c) prefs -> nth x (nth s M []) 0 = c) /\
  forall rows cols, lsa M = (rows, cols) -> length rows = length cols -> NoDup rows ->
    Forall (fun i => i < length students)%nat rows ->
    Forall (fun j => j < length topics)%nat cols ->
    let costs := map (fun '(i, j) => nth j (nth i M []) 0) (combine rows cols) in
    let avg := average (sum_Z costs) (length students) in
    Forall2 (fun '(i, j) c => In (i, j, c) prefs) (combine rows cols) costs /\
    0 <= sum_Z costs < 2 ^ 53 /\
    main t lsa fields =
    Ok ([LTotal (sum_Z costs); LAverage avg] ++
        (if above_threshold t avg then [LWarning avg t] else []) ++
        [LSolution] ++
        map (fun '(i, j) => LAssign (nth i students ""%string) (nth j topics ""%string))
            (combine rows cols)).
Proof.
  intros Ht Hb Hp.
  pose proof (prefs_small t fields students topics prefs Ht Hp) as Hsm.
  destruct (parse_matrix t fields students topics prefs Ht Hp) as (M & HM & _ & _ & Hcells).
  { rewrite Forall_forall in Hsm |- *. intros [[s x] c] Hin.
    specialize (Hsm _ Hin). cbv beta iota in Hsm |- *.
    assert (Z.of_nat (length topics) + t <=
            Z.of_nat (length students) * (Z.of_nat (length topics) + t)) by nia.
    lia. }
  exists M. split; [exact HM|]. split; [exact Hcells|].
  intros rows cols Hlsa Hlen Hnd Hr Hc costs avg.
  pose proof (matched_costs t fields students topics prefs M rows cols Hp Hcells Hr Hc)
    as HF2.
  fold costs in HF2.
  assert (Hcs : Forall (fun c => 0 <= c <= Z.of_nat (length topics) + t) costs).
  { apply (Forall2_Forall_r _ _ _ _ HF2). intros [i j] c Hin.
    rewrite Forall_forall in Hsm. specialize (Hsm _ Hin). cbv beta iota in Hsm. lia. }
  assert (Hlc : (length costs <= length students)%nat).
  { unfold costs. rewrite length_map, length_combine, Hlen, Nat.min_id, <- Hlen.
    apply NoDup_in_range_length; assumption. }
  pose proof (sum_Z_bound costs _ Hcs) as Hsb.
  assert (Z.of_nat (length costs) * (Z.of_nat (length topics) + t) <=
          Z.of_nat (length students) * (Z.of_nat (length topics) + t))
    by (apply Z.mul_le_mono_nonneg_r; lia).
  assert (Hsum : 0 <= sum_Z costs < 2 ^ 53) by lia.
  split; [exact HF2|]. split; [exact Hsum|].
  unfold main. rewrite Hp. cbv beta iota.
  apply (solve_report t lsa students topics prefs M rows cols (sum_Z costs) HM Hlsa Hlen Hr Hc).
  apply np_sum_exact; [|lia].
  apply (Forall_impl _ (fun c Hc' => proj1 Hc') Hcs).
Qed.

(** Claim C7, as the code computes it: numpy stores the costs as float64,
    sums float64 values and divides them in float64.  For a threshold
    [t >= 0], at most 2^53 students and #students * (#topics + t) < 2^53,
    every cost and every partial sum is an integer that float64 holds
    exactly.  Then, for any matching the routine returns inside the matrix
    with distinct students: the total is the sum of the matched cells; the
    average is total / #students rounded to the nearest float64
    ([round_Q]), nan when there is no student; the warning is printed
    exactly when total / #students > t; one line per matched pair follows
    in either case. *)
Theorem report_statistics t lsa fields students topics prefs :
  0 <= t -> Z.of_nat (length students) <= 2 ^ 53 ->
  Z.of_nat (length students) * (Z.of_nat (length topics) + t) < 2 ^ 53 ->
  parse_csv t fields = Ok (students, topics, prefs) ->
  exists M, build_cost_matrix (length students) (length topics) prefs = Ok M /\
  forall rows cols, lsa M = (rows, cols) -> length rows = length cols -> NoDup rows ->
    Forall (fun i => i < length students)%nat rows ->
    Forall (fun j => j < length topics)%nat cols ->
    exists total avg warning,
      main t lsa fields =
        Ok ([LTotal total; LAverage avg] ++ warning ++ [LSolution] ++
            map (fun '(i, j) => LAssign (nth i students ""%string) (nth j topics ""%string))
                (combine rows cols)) /\
      total = sum_Z (map (fun '(i, j) => nth j (nth i M []) 0) (combine rows cols)) /\
      (length students <> O ->
       avg = round_Q (inject_Z total / inject_Z (Z.of_nat (length students)))) /\
      (length students = O -> avg = Fnan) /\
      ((warning = [] /\
        ~ (inject_Z t < inject_Z total / inject_Z (Z.of_nat (length students)))%Q) \/
       ((inject_Z t < inject_Z total / inject_Z (Z.of_nat (length students)))%Q /\
        warning = [LWarning avg t])).
Proof.
  intros Ht Hn Hb Hp.
  destruct (main_report t lsa fields students topics prefs Ht Hb Hp) as (M & HM & _ & Hrep).
  exists M. split; [exact HM|].
  intros rows cols Hlsa Hlen Hnd Hr Hc.
  specialize (Hrep rows cols Hlsa Hlen Hnd Hr Hc). cbv zeta in Hrep.
  destruct Hrep as (_ & Hsum & Hmain).
  set (total := sum_Z (map (fun '(i, j) => nth j (nth i M []) 0) (combine rows cols))) in *.
  exists total, (average total (length students)),
    (if above_threshold t (average total (length students))
     then [LWarning (average total (length students)) t] else []).
  split; [exact Hmain|]. split; [reflexivity|].
  destruct (Nat.eq_dec (length students) 0) as [H0|H0].
  - assert (Erows : rows = []).
    { destruct rows as [|i rows]; [reflexivity|]. inversion Hr as [|? ? Hi]. lia. }
    assert (Etot : total = 0) by (unfold total; rewrite Erows; reflexivity).
    assert (Eavg : average total (length students) = Fnan) by (rewrite Etot, H0; reflexivity).
    split; [intros; contradiction|]. split; [intros; exact Eavg|].
    left. rewrite Eavg. split; [reflexivity|].
    rewrite Etot, H0. intros Hlt. unfold Qlt in Hlt. cbn in Hlt. lia.
  - split; [intros _; apply average_frac; lia|]. split; [intros; contradiction|].
    assert (Htb : t <= 2 ^ 53).
    { assert (t <= Z.of_nat (length students) * (Z.of_nat (length topics) + t)) by nia. lia. }
    rewrite (above_threshold_average t total (length students)) by lia.
    destruct (Z.ltb_spec (t * Z.of_nat (length students)) total) as [Hl|Hl].
    + right. split; [apply Qlt_div_iff; assumption|reflexivity].
    + left. split; [reflexivity|]. rewrite Qlt_div_iff by assumption. lia.
Qed.

(** Claim C7, refuted beyond 53 bits: with threshold 2^53 the default cost
    2^53 + 1 is stored in the float64 cost matrix as 2^53, so the program
    prints a total and an average of 2^53 and no warning, although the
    matched cost 2^53 + 1 exceeds the threshold. *)
Lemma large_threshold_no_warning :
  parse_csv (2 ^ 53) [["X";"A"]; ["s";""]]%string
    = Ok (["s"%string], ["A"%string], [(0%nat, 0%nat, 2 ^ 53 + 1)]) /\
  main (2 ^ 53) lsa_model [["X";"A"]; ["s";""]]%string
    = Ok [LTotal (2 ^ 53); LAverage (Fnum (inject_Z (2 ^ 53))); LSolution;
          LAssign "s"%string "A"%string].
Proof. split; vm_compute; reflexivity. Qed.

(** Claim C5, refuted: with two students and one topic the program raises
    nothing and reports a single assignment, leaving student s2 without a
    topic (the matching routine run as documented for a 2 x 1 matrix). *)
Lemma fewer_topics_no_error :
  main 3 lsa_model [["X";"A"]; ["s1";"1"]; ["s2";"1"]]%string
  = Ok [LTotal 1; LAverage (Fnum (1 # 2)); LSolution;
        LAssign "s1"%string "A"%string].
Proof. vm_compute. reflexivity. Qed.

Lemma filter_assign_report l students topics (pairs : list (nat * nat)) :
  filter is_assign_line l = [] ->
  length (filter is_assign_line
            (l ++ map (fun '(i, j) => LAssign (nth i students ""%string) (nth j topics ""%string))
                      pairs)) = length pairs.
Proof.
  intros Hl. rewrite filter_app, Hl. simpl.
  induction pairs as [|[i j] pairs IH]; [reflexivity|]. simpl. rewrite IH. reflexivity.
Qed.

(** Claim C5, as the code behaves: fewer topics than students is not
    detected.  For a threshold [t >= 0] with #students * (#topics + t) <
    2^53 (so that the float64 costs and totals are exact), whatever
    matching the routine returns (pairs with distinct students and distinct
    topics inside the matrix), the program succeeds and reports one line
    per pair, hence fewer lines than there are students. *)
Theorem fewer_topics_partial_report t lsa fields students topics prefs :
  0 <= t ->
  Z.of_nat (length students) * (Z.of_nat (length topics) + t) < 2 ^ 53 ->
  parse_csv t fields = Ok (students, topics, prefs) ->
  (length topics < length students)%nat ->
  exists M, build_cost_matrix (length students) (length topics) prefs = Ok M /\
  forall rows cols, lsa M = (rows, cols) -> length rows = length cols ->
    NoDup rows -> NoDup cols ->
    Forall (fun i => i < length students)%nat rows ->
    Forall (fun j => j < length topics)%nat cols ->
    exists out, main t lsa fields = Ok out /\
      length (filter is_assign_line out) = length cols /\
      (length (filter is_assign_line out) < length students)%nat.
Proof.
  intros Ht Hb Hp Hlt.
  destruct (main_report t lsa fields students topics prefs Ht Hb Hp) as (M & HM & _ & Hrep).
  exists M. split; [exact HM|].
  intros rows cols Hlsa Hlen Hndr Hnd Hr Hc.
  specialize (Hrep rows cols Hlsa Hlen Hndr Hr Hc). cbv zeta in Hrep.
  destruct Hrep as (_ & _ & Hrep).
  eexists. split; [exact Hrep|].
  rewrite app_assoc, app_assoc, filter_assign_report.
  - rewrite length_combine, Hlen, Nat.min_id.
    split; [reflexivity|]. pose proof (NoDup_in_range_length cols _ Hnd Hc). lia.
  - destruct (above_threshold t _); reflexivity.
Qed.


Lemma fold_result_ext_in {A B} (f g : A -> B -> result A) (l : list B) (a : A) :
  (forall a b, In b l -> f a b = g a b) -> fold_result f l a = fold_result g l a.
Proof.
  revert a; induction l as [|b l IH]; intros a H; [reflexivity|].
  simpl. rewrite (H a b (or_introl eq_refl)).
  destruct (g a b); simpl; [|reflexivity].
  apply IH. intros a' b' Hb. apply H. right; exact Hb.
Qed.

Lemma map_result_ext_in {A B} (f g : A -> result B) (l : list A) :
  (forall a, In a l -> f a = g a) -> map_result f l = map_result g l.
Proof.
  induction l as [|a l IH]; intros H; [reflexivity|].
  simpl. rewrite (H a (or_introl eq_refl)), IH; [reflexivity|].
  intros a' Ha. apply H. right; exact Ha.
Qed.




Lemma map_result_index_error {A B} (f : A -> result B) l a :
  (forall a e, f a = Err e -> e = IndexError) -> In a l -> is_ok (f a) = false ->
  map_result f l = Err IndexError.
Proof.
  intros Hf. induction l as [|b l IH]; intros Hin Ha; [destruct Hin|].
  simpl. destruct (f b) as [v|e] eqn:Eb; cbn [bind].
  - destruct Hin as [->|Hin]; [rewrite Eb in Ha; discriminate|].
    rewrite (IH Hin Ha). reflexivity.
  - rewrite (Hf b e Eb). reflexivity.
Qed.

(** A data row with no cell: [IndexError], all the names being read before
    any preference cell. *)
Lemma blank_row_parse_error t header rows :
  In [] rows -> parse_csv t (header :: rows) = Err IndexError.
Proof.
  intros Hin. unfold parse_csv. unfold index at 1. cbn [nth_error bind].
  change (skipn 1 (header :: rows)) with rows.
  rewrite (map_result_index_error (fun row : list string => index row 0) rows []);
    [reflexivity| |exact Hin|reflexivity].
  intros r e. unfold index. destruct (nth_error r 0); congruence.
Qed.







(** ** Witnesses: each theorem applied to a concrete table *)

Lemma default_cost_of_unspecified_witness :
  parse_csv 3 scenario_fields = Ok (scenario_students, scenario_topics, scenario_prefs) /\
  nth_error scenario_fields 2 = Some ["s2";"";"1";""]%string /\
  exists vs, row_values (length scenario_topics) ["s2";"";"1";""]%string = Some vs /\
    (vs <> [] -> forall x c, nth_error ["s2";"";"1";""]%string (S x) = Some ""%string ->
       In (1%nat, x, c) scenario_prefs -> In (c - 3) vs /\ Forall (fun p => p <= c - 3) vs) /\
    (vs = [] -> forall x c, In (1%nat, x, c) scenario_prefs -> c = 3 + 1).
Proof.
  split; [reflexivity|]. split; [reflexivity|].
  apply (default_cost_of_unspecified 3 scenario_fields scenario_students scenario_topics
           scenario_prefs 1 ["s2";"";"1";""]%string); reflexivity.
Defined.



Lemma one_triple_per_pair_witness :
  parse_csv 3 scenario_fields = Ok (scenario_students, scenario_topics, scenario_prefs) /\
  Permutation (map (fun '(s, x, _) => (s, x)) scenario_prefs)
              (list_prod (seq 0 (length scenario_students)) (seq 0 (length scenario_topics))).
Proof.
  split; [reflexivity|].
  apply (one_triple_per_pair 3 scenario_fields); reflexivity.
Defined.

Lemma fewer_topics_partial_report_witness :
  parse_csv 3 [["X";"A"]; ["s1";"1"]; ["s2";"1"]]%string
    = Ok (["s1";"s2"]%string, ["A"%string], [(0%nat,0%nat,1);(1%nat,0%nat,1)]) /\
  (length ["A"%string] < length ["s1";"s2"]%string)%nat /\
  lsa_model [[1];[1]] = ([0%nat], [0%nat]) /\
  exists out, main 3 lsa_model [["X";"A"]; ["s1";"1"]; ["s2";"1"]]%string = Ok out /\
    length (filter is_assign_line out) = 1%nat /\
    (length (filter is_assign_line out) < 2)%nat.
Proof.
  split; [reflexivity|]. split; [simpl; lia|]. split; [reflexivity|].
  destruct (fewer_topics_partial_report 3 lsa_model [["X";"A"]; ["s1";"1"]; ["s2";"1"]]%string
              ["s1";"s2"]%string ["A"%string] [(0%nat,0%nat,1);(1%nat,0%nat,1)]
              ltac:(lia) ltac:(vm_compute; reflexivity) eq_refl ltac:(simpl; lia))
    as (M & HM & H).
  vm_compute in HM. injection HM as <-.
  destruct (H [0%nat] [0%nat]) as (out & Hout & Hlen & Hlt).
  - reflexivity.
  - reflexivity.
  - constructor; [intros []|constructor].
  - constructor; [intros []|constructor].
  - constructor; [simpl; lia|constructor].
  - constructor; [simpl; lia|constructor].
  - exists out. split; [exact Hout|]. split; [exact Hlen|]. exact Hlt.
Defined.


Lemma report_statistics_witness :
  parse_csv 3 scenario_fields = Ok (scenario_students, scenario_topics, scenario_prefs) /\
  exists total avg warning,
    main 3 lsa_model scenario_fields =
      Ok ([LTotal total; LAverage avg] ++ warning ++ [LSolution] ++
          [LAssign "s1" "A"; LAssign "s2" "B"; LAssign "s3" "C"]%string) /\
    total = 3 /\ avg = round_Q (inject_Z 3 / inject_Z 3)%Q /\ warning = [].
Proof.
  split; [reflexivity|].
  destruct (report_statistics 3 lsa_model scenario_fields scenario_students scenario_topics
              scenario_prefs ltac:(lia) ltac:(simpl; lia)
              ltac:(vm_compute; reflexivity) eq_refl) as (M & HM & H).
  vm_compute in HM. injection HM as <-.
  destruct (H [0;1;2]%nat [0;1;2]%nat) as (total & avg & warning & Hmain & Htot & Havg & _ & Hw).
  - reflexivity.
  - reflexivity.
  - repeat constructor; simpl; intuition discriminate.
  - repeat constructor.
  - repeat constructor.
  - vm_compute in Htot. subst total.
    assert (Ha : avg = round_Q (inject_Z 3 / inject_Z 3)%Q) by (apply Havg; discriminate).
    subst avg.
    assert (Hw' : warning = []).
    { destruct Hw as [[Hw _] | (Hlt & _)]; [exact Hw|].
      vm_compute in Hlt. discriminate. }
    subst warning.
    exists 3, (round_Q (inject_Z 3 / inject_Z 3)%Q), []. split; [exact Hmain|].
    split; [reflexivity|]. split; reflexivity.
Defined.

Lemma acceptance_value_based_witness :
  Forall2 (fun r r' => length r = length r' /\
             Permutation (specified_cells 2 r) (specified_cells 2 r'))
    [["s1";"1";"2"]]%string [["s1";"2";"1"]]%string /\
  is_ok (parse_csv 3 [["X";"A";"B"]; ["s1";"1";"2"]]%string)
  = is_ok (parse_csv 3 [["X";"A";"B"]; ["s1";"2";"1"]]%string).
Proof.
  assert (HF : Forall2 (fun r r' => length r = length r' /\
                          Permutation (specified_cells 2 r) (specified_cells 2 r'))
                 [["s1";"1";"2"]]%string [["s1";"2";"1"]]%string).
  { constructor; [|constructor]. split; [reflexivity|]. vm_compute. apply perm_swap. }
  split; [exact HF|].
  apply (acceptance_value_based 3 ["X";"A";"B"]%string); exact HF.
Defined.

Lemma costs_positive_witness :
  0 <= 3 /\
  parse_csv 3 scenario_fields = Ok (scenario_students, scenario_topics, scenario_prefs) /\
  In (1%nat, 0%nat, 4) scenario_prefs /\ 1 <= 4.
Proof.
  split; [lia|]. split; [reflexivity|]. split; [simpl; tauto|].
  apply (costs_positive 3 scenario_fields scenario_students scenario_topics scenario_prefs 1 0);
    [lia | reflexivity | simpl; tauto].
Defined.

Lemma unspecified_costs_more_witness :
  1 <= 3 /\
  parse_csv 3 scenario_fields = Ok (scenario_students, scenario_topics, scenario_prefs) /\
  nth_error scenario_fields 2 = Some ["s2";"";"1";""]%string /\
  nth_error ["s2";"";"1";""]%string 1 = Some ""%string /\
  nth_error ["s2";"";"1";""]%string 2 = Some "1"%string /\
  In (1%nat, 0%nat, 4) scenario_prefs /\ In (1%nat, 1%nat, 1) scenario_prefs /\
  1 < 4.
Proof.
  split; [lia|]. split; [reflexivity|]. split; [reflexivity|]. split; [reflexivity|].
  split; [reflexivity|]. split; [simpl; tauto|]. split; [simpl; tauto|].
  apply (unspecified_costs_more 3 scenario_fields scenario_students scenario_topics scenario_prefs
           1 ["s2";"";"1";""]%string 0 1);
    [lia | reflexivity | reflexivity | reflexivity | | simpl; tauto | simpl; tauto].
  exists "1"%string. split; [reflexivity | discriminate].
Defined.

(** ** Further properties of the loader and the solver wrapper *)

Lemma parse_csv_load t fields :
  parse_csv t fields =
  (r <- load_phase fields ;; let '(students, topics, acc) := r in
   Ok (students, topics, merged t 0 acc)).
Proof.
  unfold parse_csv, load_phase.
  destruct (index fields 0) as [header|e]; cbn [bind]; [|reflexivity].
  destruct (map_result _ (skipn 1 fields)) as [sts|e]; cbn [bind]; [|reflexivity].
  destruct (map_result _ (seq 0 (length sts))) as [acc|e]; cbn [bind]; [|reflexivity].
  destruct (check_from 0 acc) as [[]|e]; cbn [bind]; [|reflexivity].
  rewrite merge_from_ok. reflexivity.
Qed.

Lemma load_phase_ok fields students topics acc :
  load_phase fields = Ok (students, topics, acc) ->
  exists header rows,
    fields = header :: rows /\ topics = skipn 1 header /\ length students = length rows /\
    Forall2 (fun s st => read_student fields (length topics) s = Ok st)
            (seq 0 (length rows)) acc.
Proof.
  intros H. unfold load_phase in H.
  destruct fields as [|header rows]; [discriminate|].
  unfold index at 1 in H. cbn [nth_error bind] in H.
  change (skipn 1 (header :: rows)) with rows in H.
  destruct (map_result (fun row : list string => index row 0) rows) as [sts|e] eqn:Hs;
    cbn [bind] in H; [|discriminate].
  destruct (students_phase rows sts Hs) as [Hlen _].
  destruct (map_result (read_student (header :: rows) (length (skipn 1 header)))
              (seq 0 (length sts))) as [acc'|e] eqn:Hr; cbn [bind] in H; [|discriminate].
  destruct (check_from 0 acc') as [[]|e]; cbn [bind] in H; [|discriminate].
  inversion H; subst. exists header, rows. repeat split; auto.
  rewrite <- Hlen. apply map_result_ok; exact Hr.
Qed.

Lemma student_triples_split t s u sp :
  student_triples t s (u, sp) =
  map (fun '(x, p) => (s, x, p)) sp ++ map (fun x => (s, x, default_value t sp)) u.
Proof.
  unfold student_triples. simpl. rewrite map_app, map_map. reflexivity.
Qed.

Lemma default_value_shift t1 t2 sp :
  default_value t2 sp = default_value t1 sp + (t2 - t1).
Proof. unfold default_value. destruct (map snd sp); lia. Qed.

Lemma Forall2_map_same {A B} (R : B -> B -> Prop) (f g : A -> B) l :
  Forall (fun a => R (f a) (g a)) l -> Forall2 R (map f l) (map g l).
Proof. induction 1; simpl; constructor; auto. Qed.

(** The relation between two threshold runs, triple by triple. *)
Lemma merged_shift t1 t2 fields a acc :
  (forall i u sp, nth_error acc i = Some (u, sp) ->
     (forall x p, In (x, p) sp -> cell_empty fields (a + i) x = false) /\
     (forall x, In x u -> cell_empty fields (a + i) x = true)) ->
  Forall2 (shifted_by fields (t2 - t1)) (merged t1 a acc) (merged t2 a acc).
Proof.
  revert a; induction acc as [|[u sp] acc IH]; intros a H; simpl; [constructor|].
  apply Forall2_app.
  - destruct (H 0%nat u sp eq_refl) as [Hsp Hu]. rewrite Nat.add_0_r in Hsp, Hu.
    rewrite !student_triples_split. apply Forall2_app.
    + apply Forall2_map_same. apply Forall_forall. intros [x p] Hin.
      simpl. rewrite (Hsp x p Hin). repeat split; lia.
    + apply Forall2_map_same. apply Forall_forall. intros x Hin.
      simpl. rewrite (Hu x Hin), (default_value_shift t1 t2). repeat split; lia.
  - apply IH. intros i u' sp' Hi.
    replace (S a + i)%nat with (a + S i)%nat by lia. apply (H (S i)). exact Hi.
Qed.

Lemma read_cells_empty fields s row m u sp :
  nth_error fields (S s) = Some row ->
  read_student fields m s = Ok (u, sp) ->
  (forall x p, In (x, p) sp -> cell_empty fields s x = false) /\
  (forall x, In x u -> cell_empty fields s x = true).
Proof.
  intros Hrow Hread.
  destruct (read_student_sound fields s row Hrow m u sp Hread)
    as (_ & _ & _ & _ & _ & Hsp & Hu).
  unfold cell_empty. rewrite Hrow. split.
  - intros x p Hin. destruct (Hsp x p Hin) as (c & Hc & Hne & _). rewrite Hc.
    apply String.eqb_neq. exact Hne.
  - intros x Hin. rewrite (Hu x Hin). reflexivity.
Qed.

Lemma load_phase_cells fields students topics acc :
  load_phase fields = Ok (students, topics, acc) ->
  forall i u sp, nth_error acc i = Some (u, sp) ->
  (forall x p, In (x, p) sp -> cell_empty fields (0 + i) x = false) /\
  (forall x, In x u -> cell_empty fields (0 + i) x = true).
Proof.
  intros H i u sp Hi.
  destruct (load_phase_ok fields students topics acc H) as (header & rows & Hf & _ & _ & HF).
  destruct (Forall2_nth_error_r _ _ _ _ _ HF Hi) as (a & Ha & Hread).
  rewrite nth_error_seq in Ha.
  destruct (Nat.ltb i (length rows)) eqn:Hlt; [|discriminate].
  injection Ha as <-. apply Nat.ltb_lt in Hlt.
  destruct (nth_error rows i) as [row|] eqn:Hrow; [|apply nth_error_None in Hrow; lia].
  apply (read_cells_empty fields (0 + i) row (length topics)); [|exact Hread].
  subst fields. exact Hrow.
Qed.

(** The threshold (the global [penalize_below_n_preferences]) does not take
    part in validation: two thresholds give the same error, or the same
    students, topics and triple keys, the cost of a triple moving by the
    difference of the thresholds exactly when its cell was left empty. *)
Theorem threshold_only_shifts_defaults t1 t2 fields :
  (forall e, parse_csv t1 fields = Err e <-> parse_csv t2 fields = Err e) /\
  (forall students topics p1, parse_csv t1 fields = Ok (students, topics, p1) ->
     exists p2, parse_csv t2 fields = Ok (students, topics, p2) /\
       Forall2 (shifted_by fields (t2 - t1)) p1 p2).
Proof.
  rewrite !parse_csv_load.
  destruct (load_phase fields) as [[[students topics] acc]|e] eqn:E; cbn [bind].
  - split; [intros e; split; discriminate|].
    intros sts tps p1 H. injection H as <- <- <-.
    exists (merged t2 0 acc). split; [reflexivity|].
    apply merged_shift. exact (load_phase_cells fields students topics acc E).
  - split; [reflexivity|]. intros ? ? ? H; discriminate.
Qed.

Lemma read_cell_tails fields fields' s st x :
  option_map (skipn 1) (nth_error fields (S s)) = option_map (skipn 1) (nth_error fields' (S s)) ->
  read_cell fields s st x = read_cell fields' s st x.
Proof.
  intros H. destruct st as [u sp]. unfold read_cell, index.
  destruct (nth_error fields (S s)) as [r|], (nth_error fields' (S s)) as [r'|];
    cbn [option_map] in H; try discriminate; cbv beta iota delta [bind]; [|reflexivity].
  injection H as H.
  assert (E : nth_error r (S x) = nth_error r' (S x))
    by (rewrite <- (nth_error_skipn1 r), <- (nth_error_skipn1 r'); f_equal; exact H).
  rewrite E. reflexivity.
Qed.

Lemma map_result_heads (rows : list (list string)) :
  Forall (fun r => r <> []) rows ->
  map_result (fun row => index row 0) rows = Ok (map (fun r => nth 0 r ""%string) rows).
Proof.
  induction 1 as [|r rows Hr _ IH]; [reflexivity|].
  destruct r as [|c r]; [contradiction|]. simpl. rewrite IH. reflexivity.
Qed.

(** Neither the topic names in the header nor the student names in the first
    column are read by the checks or the costs: tables that differ only in
    them (same number of header cells, non-empty rows with the same cells
    after the first) give the same error, or the same triples.  In
    particular repeated or empty names are never rejected. *)
Theorem names_not_read t header header' rows rows' :
  length header = length header' ->
  Forall2 (fun r r' => r <> [] /\ r' <> [] /\ skipn 1 r = skipn 1 r') rows rows' ->
  match parse_csv t (header :: rows), parse_csv t (header' :: rows') with
  | Ok (_, _, p), Ok (_, _, p') => p = p'
  | Err e, Err e' => e = e'
  | _, _ => False
  end.
Proof.
  intros Hh HF.
  assert (Hne : Forall (fun r => r <> []) rows /\ Forall (fun r => r <> []) rows').
  { clear Hh. induction HF as [|r r' rows rows' (Hr & Hr' & _) _ [IH IH']];
      split; constructor; auto. }
  destruct Hne as [Hne Hne'].
  assert (Hm : length (skipn 1 header) = length (skipn 1 header'))
    by (rewrite !length_skipn; lia).
  assert (Hn : length rows = length rows') by (eapply Forall2_length; exact HF).
  unfold parse_csv.
  change (index (header :: rows) 0) with (Ok header : result (list string)).
  change (index (header' :: rows') 0) with (Ok header' : result (list string)).
  cbn [bind]. change (skipn 1 (?h :: ?l)) with l.
  rewrite (map_result_heads rows Hne), (map_result_heads rows' Hne'). cbn [bind].
  rewrite !length_map, <- Hn, <- Hm.
  rewrite (map_result_ext_in (read_student (header' :: rows') (length (skipn 1 header)))
                             (read_student (header :: rows) (length (skipn 1 header)))).
  - destruct (map_result _ _) as [acc|e]; cbn [bind]; [|reflexivity].
    destruct (check_from 0 acc) as [[]|e]; cbn [bind]; [|reflexivity].
    rewrite merge_from_ok. reflexivity.
  - intros s _. unfold read_student. apply fold_result_ext_in. intros st x _.
    apply read_cell_tails. cbn [nth_error]. clear - HF.
    revert s; induction HF as [|r r' rows rows' (_ & _ & E) _ IH]; intros [|s];
      cbn [nth_error option_map]; auto. rewrite E. reflexivity.
Qed.

(** With a header and no data row the program reports a total of 0, an
    undefined average (nan, as [total / 0] on a numpy float), no warning and
    no assignment, provided the matching routine returns no pair for the
    empty matrix. *)
Theorem no_students_report t lsa header :
  lsa [] = ([], []) ->
  main t lsa [header] = Ok [LTotal 0; LAverage Fnan; LSolution].
Proof.
  intros H. unfold main, solve_assignment_problem. cbn. rewrite H. reflexivity.
Qed.

(** A data row with no cell at all (what [csv.reader] yields for a blank
    line) makes loading fail with [IndexError], whatever the other rows
    hold: student names are all read before any preference cell. *)
Theorem blank_row_index_error t header rows :
  In [] rows -> parse_csv t (header :: rows) = Err IndexError.
Proof. apply blank_row_parse_error. Qed.

(** A non-empty cell under a topic column of an accepted table becomes that
    student's cost for the topic, unchanged: it is the only triple for the
    (student, topic) pair. *)
Theorem specified_cost_kept t fields students topics prefs s row x c p :
  parse_csv t fields = Ok (students, topics, prefs) ->
  nth_error fields (S s) = Some row ->
  (x < length topics)%nat -> nth_error row (S x) = Some c -> c <> ""%string ->
  py_int c = Some p ->
  forall c', In (s, x, c') prefs <-> c' = p.
Proof.
  intros H Hrow Hx Hc Hne Hp c'.
  destruct (student_costs t fields students topics prefs s row H Hrow)
    as (u & sp & Hread & _ & _ & _ & _ & Hiff).
  destruct (read_student_cells fields s row _ u sp x c Hrow Hread Hx Hc) as [_ Hcell].
  destruct (Hcell Hne) as [Hsp Hnu].
  destruct (read_student_sound fields s row Hrow _ u sp Hread)
    as (_ & _ & _ & _ & _ & Hsound & _).
  rewrite Hiff. split.
  - intros [Hin|[Hin _]]; [|contradiction].
    destruct (Hsound x c' Hin) as (c'' & Hc'' & _ & Hp'').
    rewrite Hc in Hc''. injection Hc'' as <-. congruence.
  - intros ->. left. apply Hsp. exact Hp.
Qed.

(** An empty cell of an accepted table costs [k + t], where [k] is the number
    of topics the student ranked (their values being exactly 1..k), or
    [t + 1] when the student ranked none. *)
Theorem default_cost_is_count_plus_threshold t fields students topics prefs s row x :
  parse_csv t fields = Ok (students, topics, prefs) ->
  nth_error fields (S s) = Some row ->
  (x < length topics)%nat -> nth_error row (S x) = Some ""%string ->
  let k := length (specified_cells (length topics) row) in
  forall c, In (s, x, c) prefs <-> c = (if Nat.eqb k 0 then t + 1 else Z.of_nat k + t).
Proof.
  intros H Hrow Hx Hc k c.
  destruct (student_costs t fields students topics prefs s row H Hrow)
    as (u & sp & Hread & _ & Hk & _ & Hdef & Hiff).
  destruct (read_student_cells fields s row _ u sp x ""%string Hrow Hread Hx Hc) as [Hcell _].
  destruct (Hcell eq_refl) as [Hu Hsp].
  subst k. rewrite Hk, <- Hdef, Hiff. split.
  - intros [Hin|[_ ->]]; [exfalso; exact (Hsp c Hin)|reflexivity].
  - intros ->. right. auto.
Qed.

(** With a threshold >= 0, no cost of an accepted table exceeds the number
    of topics plus the threshold. *)
Theorem cost_upper_bound t fields students topics prefs s x c :
  0 <= t ->
  parse_csv t fields = Ok (students, topics, prefs) ->
  In (s, x, c) prefs -> c <= Z.of_nat (length topics) + t.
Proof.
  intros Ht H Hin.
  destruct (prefs_student_row t fields students topics prefs s x c H Hin) as (row & Hrow).
  destruct (student_costs t fields students topics prefs s row H Hrow)
    as (u & sp & _ & Hp & _ & Hlen & Hdef & Hiff).
  apply Hiff in Hin as [Hin|[Hu ->]].
  - assert (Hc : In c (zrange (length sp))).
    { apply (Permutation_in _ Hp). apply in_map_iff. exists (x, c); auto. }
    apply In_zrange in Hc. lia.
  - rewrite Hdef. destruct u as [|y u]; [destruct Hu|].
    simpl in Hlen. destruct (Nat.eqb (length sp) 0); lia.
Qed.

(** For a threshold >= 0 with #topics + threshold <= 2^53, so that every
    cost is an integer that float64 holds exactly, the cost matrix built from
    an accepted table has one row per student and one column per topic, and
    holds each triple's cost at its (student, topic) cell; with every pair
    having a triple, no cell keeps the zero of [np.zeros]. *)
Theorem cost_matrix_holds_costs t fields students topics prefs :
  0 <= t -> Z.of_nat (length topics) + t <= 2 ^ 53 ->
  parse_csv t fields = Ok (students, topics, prefs) ->
  exists M, build_cost_matrix (length students) (length topics) prefs = Ok M /\
    length M = length students /\ Forall (fun row => length row = length topics) M /\
    (forall s x c, In (s, x, c) prefs -> nth x (nth s M []) 0 = c).
Proof.
  intros Ht HT H. apply (parse_matrix t fields students topics prefs Ht H).
  pose proof (prefs_small t fields students topics prefs Ht H) as Hs.
  rewrite Forall_forall in Hs |- *. intros [[s x] c] Hin.
  specialize (Hs _ Hin). cbv beta iota in Hs |- *. lia.
Qed.


(** For a threshold >= 0, an accepted table with at least one and at most
    2^53 students and #students * (#topics + threshold) < 2^53 (so that the
    float64 costs and sums are exact), and any matching the routine returns
    inside the matrix with distinct students: the printed total is the sum of
    the preference costs (the triples' costs) of the printed (student, topic)
    pairs, and the warning is printed exactly when that total exceeds
    threshold * number of students. *)
Theorem report_total_is_sum_of_costs t lsa fields students topics prefs :
  0 <= t -> Z.of_nat (length students) <= 2 ^ 53 ->
  Z.of_nat (length students) * (Z.of_nat (length topics) + t) < 2 ^ 53 ->
  parse_csv t fields = Ok (students, topics, prefs) ->
  students <> [] ->
  exists M, build_cost_matrix (length students) (length topics) prefs = Ok M /\
  forall rows cols, lsa M = (rows, cols) -> length rows = length cols -> NoDup rows ->
    Forall (fun i => i < length students)%nat rows ->
    Forall (fun j => j < length topics)%nat cols ->
    exists costs out,
      Forall2 (fun '(i, j) c => In (i, j, c) prefs) (combine rows cols) costs /\
      main t lsa fields = Ok (LTotal (sum_Z costs) :: out) /\
      ((exists a, In (LWarning a t) out) <-> t * Z.of_nat (length students) < sum_Z costs).
Proof.
  intros Ht Hn Hb Hp Hne.
  destruct (main_report t lsa fields students topics prefs Ht Hb Hp) as (M & HM & _ & Hrep).
  exists M. split; [exact HM|].
  intros rows cols Hlsa Hlen Hnd Hr Hc.
  specialize (Hrep rows cols Hlsa Hlen Hnd Hr Hc). cbv zeta in Hrep.
  set (costs := map (fun '(i, j) => nth j (nth i M []) 0) (combine rows cols)) in *.
  destruct Hrep as (HF2 & Hsum & Hmain).
  assert (Hn1 : (1 <= length students)%nat)
    by (destruct students; [contradiction|simpl; lia]).
  assert (Htb : t <= 2 ^ 53).
  { assert (t <= Z.of_nat (length students) * (Z.of_nat (length topics) + t)) by nia. lia. }
  rewrite (above_threshold_average t (sum_Z costs) (length students)) in Hmain by lia.
  exists costs. eexists. split; [exact HF2|]. split; [exact Hmain|].
  destruct (Z.ltb_spec (t * Z.of_nat (length students)) (sum_Z costs)) as [Hl|Hl]; split.
  - intros _; exact Hl.
  - intros _. eexists. right; left; reflexivity.
  - intros (a & Ha). exfalso.
    destruct Ha as [Ha|Ha]; [discriminate|].
    destruct Ha as [Ha|Ha]; [discriminate|].
    apply in_map_iff in Ha as ([i j] & Ea & _). discriminate.
  - intros H. lia.
Qed.





Lemma lstrip_spaces l : forallb is_py_space l = true -> lstrip l = [].
Proof.
  induction l as [|a l IH]; simpl; [reflexivity|].
  intros H. apply andb_true_iff in H as [Ha Hl]. rewrite Ha. apply IH; exact Hl.
Qed.

Lemma py_int_spaces c : is_space_string c = true -> py_int c = None.
Proof.
  intros H. unfold py_int, strip. rewrite (lstrip_spaces _ H). reflexivity.
Qed.

Lemma unparsable_cell_rejects t header rows row x c :
  In row rows -> (x < length (skipn 1 header))%nat ->
  nth_error row (S x) = Some c -> c <> ""%string -> py_int c = None ->
  is_ok (parse_csv t (header :: rows)) = false.
Proof.
  intros Hin Hx Hc Hne Hpy. rewrite parse_csv_accepts.
  cbv beta iota delta [table_accepted].
  destruct (forallb _ rows) eqn:E; [|reflexivity].
  rewrite forallb_forall in E. specialize (E row Hin).
  unfold row_accepted, row_values in E. rewrite parse_all_spec in E.
  assert (Hcs : In c (specified_cells (length (skipn 1 header)) row)).
  { unfold specified_cells, cells_of. apply filter_In. split.
    - apply (nth_error_In _ x). rewrite nth_error_firstn.
      replace (Nat.ltb x (length (skipn 1 header))) with true
        by (symmetry; apply Nat.ltb_lt; exact Hx).
      rewrite nth_error_skipn1. exact Hc.
    - apply negb_true_iff. apply String.eqb_neq. exact Hne. }
  destruct (forallb _ (specified_cells _ row)) eqn:F.
  - rewrite forallb_forall in F. specialize (F c Hcs). rewrite Hpy in F. discriminate.
  - rewrite andb_false_r in E. discriminate.
Qed.

(** A non-empty cell under a topic column holding only whitespace is not an
    unspecified preference (only the empty string is): [int()] rejects it
    and loading fails. *)
Theorem whitespace_cell_rejected t header rows row x c :
  In row rows -> (x < length (skipn 1 header))%nat ->
  nth_error row (S x) = Some c -> c <> ""%string -> is_space_string c = true ->
  is_ok (parse_csv t (header :: rows)) = false.
Proof.
  intros Hin Hx Hc Hne Hsp.
  exact (unparsable_cell_rejects t header rows row x c Hin Hx Hc Hne (py_int_spaces c Hsp)).
Qed.









Lemma map_result_heads_ok (rows : list (list string)) sts :
  map_result (fun row => index row 0) rows = Ok sts ->
  sts = map (fun r => nth 0 r ""%string) rows.
Proof.
  revert sts; induction rows as [|r rows IH]; intros sts H; simpl in H.
  - injection H as <-. reflexivity.
  - destruct r as [|c r]; [discriminate|]. cbn [index nth_error bind] in H.
    destruct (map_result _ rows) as [sts'|e] eqn:E; cbn [bind] in H; [|discriminate].
    injection H as <-. rewrite (IH sts' eq_refl). reflexivity.
Qed.

(** The loaded names are read as they stand: the students are the first
    cells of the data rows, in file order, and the topics are the header
    cells after the first, in order; repeated names are kept. *)
Theorem loaded_names t header rows students topics prefs :
  parse_csv t (header :: rows) = Ok (students, topics, prefs) ->
  students = map (fun r => nth 0 r ""%string) rows /\ topics = skipn 1 header.
Proof.
  intros H. unfold parse_csv in H.
  change (index (header :: rows) 0) with (Ok header : result (list string)) in H.
  cbn [bind] in H. change (skipn 1 (header :: rows)) with rows in H.
  destruct (map_result (fun row => index row 0) rows) as [sts|e] eqn:Hs;
    cbn [bind] in H; [|discriminate].
  destruct (map_result _ (seq 0 (length sts))) as [acc|e]; cbn [bind] in H; [|discriminate].
  destruct (check_from 0 acc) as [u|e]; cbn [bind] in H; [|discriminate].
  destruct (merge_from t 0 acc) as [p|e]; cbn [bind] in H; [|discriminate].
  injection H as <- <- _. split; [apply map_result_heads_ok; exact Hs|reflexivity].
Qed.

(** ** Witnesses of the further properties *)

Lemma names_not_read_witness :
  length ["X";"A"]%string = length ["Y";"A"]%string /\
  Forall2 (fun r r' => r <> [] /\ r' <> [] /\ skipn 1 r = skipn 1 r')
    [["s";"1"]]%string [["t";"1"]]%string /\
  match parse_csv 3 (["X";"A"] :: [["s";"1"]])%string,
        parse_csv 3 (["Y";"A"] :: [["t";"1"]])%string with
  | Ok (_, _, p), Ok (_, _, p') => p = p'
  | Err e, Err e' => e = e'
  | _, _ => False
  end.
Proof.
  assert (HF : Forall2 (fun r r' => r <> [] /\ r' <> [] /\ skipn 1 r = skipn 1 r')
                 [["s";"1"]]%string [["t";"1"]]%string).
  { constructor; [|constructor]. split; [discriminate|]. split; [discriminate|reflexivity]. }
  split; [reflexivity|]. split; [exact HF|].
  apply (names_not_read 3); [reflexivity|exact HF].
Defined.

Lemma no_students_report_witness :
  lsa_model [] = ([], []) /\
  main 3 lsa_model [["X";"A";"B"]%string] = Ok [LTotal 0; LAverage Fnan; LSolution].
Proof.
  split; [reflexivity|]. apply no_students_report. reflexivity.
Defined.

Lemma blank_row_index_error_witness :
  In [] [["s";"1"]; []]%string /\
  parse_csv 3 (["X";"A"] :: [["s";"1"]; []])%string = Err IndexError.
Proof.
  split; [right; left; reflexivity|].
  apply blank_row_index_error. right; left; reflexivity.
Defined.

Lemma specified_cost_kept_witness :
  parse_csv 3 scenario_fields = Ok (scenario_students, scenario_topics, scenario_prefs) /\
  nth_error scenario_fields 2 = Some ["s2";"";"1";""]%string /\
  (1 < length scenario_topics)%nat /\ nth_error ["s2";"";"1";""]%string 2 = Some "1"%string /\
  "1"%string <> ""%string /\ py_int "1" = Some 1 /\
  forall c', In (1%nat, 1%nat, c') scenario_prefs <-> c' = 1.
Proof.
  split; [reflexivity|]. split; [reflexivity|]. split; [simpl; lia|].
  split; [reflexivity|]. split; [discriminate|]. split; [reflexivity|].
  apply (specified_cost_kept 3 scenario_fields scenario_students scenario_topics scenario_prefs
           1 ["s2";"";"1";""]%string 1 "1"%string);
    [reflexivity | reflexivity | simpl; lia | reflexivity | discriminate | reflexivity].
Defined.

Lemma default_cost_is_count_plus_threshold_witness :
  parse_csv 3 scenario_fields = Ok (scenario_students, scenario_topics, scenario_prefs) /\
  nth_error scenario_fields 2 = Some ["s2";"";"1";""]%string /\
  (0 < length scenario_topics)%nat /\ nth_error ["s2";"";"1";""]%string 1 = Some ""%string /\
  let k := length (specified_cells (length scenario_topics) ["s2";"";"1";""]%string) in
  forall c, In (1%nat, 0%nat, c) scenario_prefs <->
            c = (if Nat.eqb k 0 then 3 + 1 else Z.of_nat k + 3).
Proof.
  split; [reflexivity|]. split; [reflexivity|]. split; [simpl; lia|]. split; [reflexivity|].
  apply (default_cost_is_count_plus_threshold 3 scenario_fields scenario_students scenario_topics
           scenario_prefs 1 ["s2";"";"1";""]%string 0);
    [reflexivity | reflexivity | simpl; lia | reflexivity].
Defined.

Lemma cost_upper_bound_witness :
  0 <= 3 /\
  parse_csv 3 scenario_fields = Ok (scenario_students, scenario_topics, scenario_prefs) /\
  In (2%nat, 1%nat, 5) scenario_prefs /\ 5 <= Z.of_nat (length scenario_topics) + 3.
Proof.
  split; [lia|]. split; [reflexivity|]. split; [simpl; tauto|].
  apply (cost_upper_bound 3 scenario_fields scenario_students scenario_topics scenario_prefs 2 1);
    [lia | reflexivity | simpl; tauto].
Defined.

Lemma cost_matrix_holds_costs_witness :
  parse_csv 3 scenario_fields = Ok (scenario_students, scenario_topics, scenario_prefs) /\
  exists M, build_cost_matrix (length scenario_students) (length scenario_topics) scenario_prefs
              = Ok M /\
    length M = length scenario_students /\
    Forall (fun row => length row = length scenario_topics) M /\
    (forall s x c, In (s, x, c) scenario_prefs -> nth x (nth s M []) 0 = c).
Proof.
  split; [reflexivity|].
  apply (cost_matrix_holds_costs 3 scenario_fields); [lia | simpl; lia | reflexivity].
Defined.

Lemma report_total_is_sum_of_costs_witness :
  parse_csv 3 scenario_fields = Ok (scenario_students, scenario_topics, scenario_prefs) /\
  scenario_students <> [] /\
  lsa_model [[1;2;3];[4;1;4];[2;5;1]] = ([0;1;2]%nat, [0;1;2]%nat) /\
  exists costs out,
    Forall2 (fun '(i, j) c => In (i, j, c) scenario_prefs)
      (combine [0;1;2]%nat [0;1;2]%nat) costs /\
    main 3 lsa_model scenario_fields = Ok (LTotal (sum_Z costs) :: out) /\
    ((exists a, In (LWarning a 3) out) <->
     3 * Z.of_nat (length scenario_students) < sum_Z costs).
Proof.
  split; [reflexivity|]. split; [discriminate|]. split; [reflexivity|].
  destruct (report_total_is_sum_of_costs 3 lsa_model scenario_fields scenario_students
              scenario_topics scenario_prefs ltac:(lia) ltac:(simpl; lia)
              ltac:(vm_compute; reflexivity) eq_refl ltac:(discriminate)) as (M & HM & H).
  vm_compute in HM. injection HM as <-.
  apply H; [reflexivity | reflexivity | repeat constructor; simpl; intuition discriminate
           | repeat constructor | repeat constructor].
Defined.


Lemma whitespace_cell_rejected_witness :
  In ["s";" "]%string [["s";" "]]%string /\ (0 < length (skipn 1 ["X";"A"]%string))%nat /\
  nth_error ["s";" "]%string 1 = Some " "%string /\ " "%string <> ""%string /\
  is_space_string " " = true /\
  is_ok (parse_csv 3 (["X";"A"] :: [["s";" "]])%string) = false.
Proof.
  split; [left; reflexivity|]. split; [simpl; lia|]. split; [reflexivity|].
  split; [discriminate|]. split; [reflexivity|].
  apply (whitespace_cell_rejected 3 ["X";"A"]%string [["s";" "]]%string ["s";" "]%string 0 " ");
    [left; reflexivity | simpl; lia | reflexivity | discriminate | reflexivity].
Defined.


Lemma loaded_names_witness :
  parse_csv 3 (["X";"A";"A"] :: [["s";"1";"2"]; ["s";"2";"1"]])%string
    = Ok (["s";"s"]%string, ["A";"A"]%string,
          [(0%nat,0%nat,1);(0%nat,1%nat,2);(1%nat,0%nat,2);(1%nat,1%nat,1)]) /\
  ["s";"s"]%string = map (fun r => nth 0 r ""%string) [["s";"1";"2"]; ["s";"2";"1"]]%string /\
  ["A";"A"]%string = skipn 1 ["X";"A";"A"]%string.
Proof.
  assert (H : parse_csv 3 (["X";"A";"A"] :: [["s";"1";"2"]; ["s";"2";"1"]])%string
    = Ok (["s";"s"]%string, ["A";"A"]%string,
          [(0%nat,0%nat,1);(0%nat,1%nat,2);(1%nat,0%nat,2);(1%nat,1%nat,1)])) by reflexivity.
  split; [exact H|]. exact (loaded_names 3 _ _ _ _ _ H).
Defined.
